(** * flippyfloppy: document and geospatial converters

    A shallow embedding of [src/documents/docx2ascii.ts] and
    [src/documents/ascii2docx.ts] (which also holds the GeoConverter class).

    - [JS]: the fragment of the JavaScript runtime the converters rely on:
      strings as sequences of UTF-16 code units, the backtracking regular
      expression matcher, [String.prototype.replace] and its replacement
      patterns.
    - [Docx2Ascii]: [markdownToAsciidoc], [postProcessAsciidoc] and
      [validateDocxFile].
    - [Ascii2Docx]: [convertAsciidocToDocx].
    - [Geo]: the [GeoConverter] class over a model of the embedded engine. *)

From Stdlib Require Import List NArith Bool Lia String Ascii Arith.
From stdpp Require Import gmap strings.
Import ListNotations.

(* ===================================================================== *)
(** * The JavaScript fragment                                             *)
(* ===================================================================== *)

Module JS.

(** A JavaScript string is a sequence of UTF-16 code units. *)
Definition char := N.
Definition jsstring := list char.

(** Literals are written as ASCII strings. *)
Fixpoint str (s : string) : jsstring :=
  match s with
  | EmptyString => []
  | String a s' => N_of_ascii a :: str s'
  end.

Definition nl : char := 10%N.

(** [lines [l1; l2; ...]] is [l1 \n l2 \n ...], without a final newline. *)
Fixpoint lines (l : list string) : jsstring :=
  match l with
  | [] => []
  | [a] => str a
  | a :: l' => str a ++ nl :: lines l'
  end.

Definition chr (c : string) (x : char) : bool :=
  match str c with
  | [y] => N.eqb x y
  | _ => false
  end.

(** The character class of [\n] alone. *)
Definition newline (c : char) : bool := N.eqb c nl.

Definition oneOf (l : list (char -> bool)) (x : char) : bool :=
  existsb (fun p => p x) l.

Definition noneOf (l : list (char -> bool)) (x : char) : bool :=
  negb (oneOf l x).

(** ** Character classes (ECMA-262, 22.2.2.9 CharacterClassEscape) *)

Definition isLineTerminator (c : char) : bool :=
  (N.eqb c 10 || N.eqb c 13 || N.eqb c 8232 || N.eqb c 8233)%N.

Definition isWhiteSpace (c : char) : bool :=
  (N.eqb c 9 || N.eqb c 11 || N.eqb c 12 || N.eqb c 32 || N.eqb c 160 ||
   N.eqb c 5760 || (N.leb 8192 c && N.leb c 8202) || N.eqb c 8239 ||
   N.eqb c 8287 || N.eqb c 12288 || N.eqb c 65279)%N.

(** [\s] *)
Definition cls_s (c : char) : bool := isWhiteSpace c || isLineTerminator c.

(** [\d] *)
Definition cls_d (c : char) : bool := (N.leb 48 c && N.leb c 57)%N.

(** [\w] *)
Definition cls_w (c : char) : bool :=
  ((N.leb 97 c && N.leb c 122) || (N.leb 65 c && N.leb c 90) ||
   cls_d c || N.eqb c 95)%N.

(** [.] without the s flag *)
Definition dot (c : char) : bool := negb (isLineTerminator c).

(** [[\s\S]] *)
Definition any (c : char) : bool := cls_s c || negb (cls_s c).

Arguments chr _ _ : simpl never.
Arguments newline _ : simpl never.
Arguments isLineTerminator _ : simpl never.
Arguments isWhiteSpace _ : simpl never.
Arguments cls_s _ : simpl never.
Arguments cls_d _ : simpl never.
Arguments cls_w _ : simpl never.
Arguments dot _ : simpl never.
Arguments any _ : simpl never.

(** ** Patterns

    The converters use sequences of one-character atoms, quantified
    one-character atoms, the assertions [^] and [$] (always under the [m]
    flag) and capturing groups that are neither nested nor quantified. *)

Inductive regex :=
| Epsilon
| Class (p : char -> bool)
| Repeat (p : char -> bool) (min : nat) (max : option nat) (greedy : bool)
| LineStart
| LineEnd
| Group (r : regex)
| Seq (r1 r2 : regex).

Definition Char (c : string) : regex := Class (chr c).

(** [p+], [p*?], [p{a,b}] *)
Definition oneOrMore (p : char -> bool) : regex := Repeat p 1 None true.
Definition lazyStar (p : char -> bool) : regex := Repeat p 0 None false.
Definition between (p : char -> bool) (a b : nat) : regex := Repeat p a (Some b) true.

Fixpoint cat (l : list regex) : regex :=
  match l with
  | [] => Epsilon
  | r :: l' => Seq r (cat l')
  end.

(** ** The matcher (ECMA-262, 22.2.2: continuation-passing backtracking)

    A state holds the text before the current position (reversed, so that
    its head is the previous character), the text from the current position
    on, and the captures closed so far, in order. *)

Record state := State { bef : jsstring; rest : jsstring; caps : list jsstring }.

Definition cont := state -> option state.

Definition bol (b : jsstring) : bool :=
  match b with
  | [] => true
  | c :: _ => isLineTerminator c
  end.

Definition eol (s : jsstring) : bool :=
  match s with
  | [] => true
  | c :: _ => isLineTerminator c
  end.

Definition max_allows (mx : option nat) : bool :=
  match mx with
  | Some O => false
  | _ => true
  end.

Definition max_pred (mx : option nat) : option nat :=
  match mx with
  | Some n => Some (pred n)
  | None => None
  end.

(** RepeatMatcher for a one-character atom: the atom never matches the
    empty string, so the recursion follows the input. *)
Fixpoint repeat_matcher (p : char -> bool) (mn : nat) (mx : option nat) (greedy : bool)
    (k : jsstring -> jsstring -> option state) (b s : jsstring) : option state :=
  let stop := match mn with O => k b s | S _ => None end in
  let more :=
    match s with
    | c :: s' =>
        if p c && max_allows mx
        then repeat_matcher p (pred mn) (max_pred mx) greedy k (c :: b) s'
        else None
    | [] => None
    end in
  if greedy
  then match more with Some y => Some y | None => stop end
  else match stop with Some y => Some y | None => more end.

Fixpoint matcher (r : regex) (k : cont) (x : state) : option state :=
  match r with
  | Epsilon => k x
  | Class p =>
      match rest x with
      | c :: s' => if p c then k (State (c :: bef x) s' (caps x)) else None
      | [] => None
      end
  | Repeat p mn mx g =>
      repeat_matcher p mn mx g (fun b s => k (State b s (caps x))) (bef x) (rest x)
  | LineStart => if bol (bef x) then k x else None
  | LineEnd => if eol (rest x) then k x else None
  | Group r1 =>
      matcher r1
        (fun y => k (State (bef y) (rest y)
                       (caps y ++ [rev (firstn (length (bef y) - length (bef x)) (bef y))])))
        x
  | Seq r1 r2 => matcher r1 (matcher r2 k) x
  end.

(** One match attempt at the current position. *)
Definition exec (r : regex) (b s : jsstring) : option state :=
  matcher r Some (State b s []).

(** The matched text of a successful attempt started before [b]. *)
Definition matched (b : jsstring) (y : state) : jsstring :=
  rev (firstn (length (bef y) - length b) (bef y)).

(** ** Replacement patterns (ECMA-262, 22.1.3.19.1 GetSubstitution) *)

Definition digit_val (c : char) : nat := N.to_nat (c - 48)%N.

Definition capture (caps : list jsstring) (i : nat) : option jsstring :=
  match i with
  | O => None
  | S j => nth_error caps j
  end.

Fixpoint getSubstitution (m before after : jsstring) (caps : list jsstring)
    (t : jsstring) : jsstring :=
  match t with
  | [] => []
  | c :: t1 =>
      if negb (chr "$" c) then c :: getSubstitution m before after caps t1 else
      match t1 with
      | [] => [c]
      | d :: t2 =>
          if chr "$" d then d :: getSubstitution m before after caps t2
          else if chr "&" d then m ++ getSubstitution m before after caps t2
          else if chr "`" d then before ++ getSubstitution m before after caps t2
          else if chr "'" d then after ++ getSubstitution m before after caps t2
          else if cls_d d then
            let one :=
              match capture caps (digit_val d) with
              | Some x => x ++ getSubstitution m before after caps t2
              | None => c :: d :: getSubstitution m before after caps t2
              end in
            match t2 with
            | e :: t3 =>
                if cls_d e then
                  match capture caps (10 * digit_val d + digit_val e) with
                  | Some x => x ++ getSubstitution m before after caps t3
                  | None => one
                  end
                else one
            | [] => one
            end
          else c :: getSubstitution m before after caps t1
      end
  end.

(** ** String.prototype.replace with a regular expression

    [replacer m caps before after] is the text put in place of a match. The
    scan tries a match at every position from left to right; after a match
    it resumes at the end of the match ([skip] counts the characters of the
    match still to step over), and after an empty match it copies one
    character. Without the [g] flag only the first match is replaced. *)

Definition replacer := jsstring -> list jsstring -> jsstring -> jsstring -> jsstring.

Definition by_pattern (t : jsstring) : replacer :=
  fun m caps before after => getSubstitution m before after caps t.

Fixpoint scan (r : regex) (f : replacer) (global : bool) (skip : nat)
    (b s : jsstring) : jsstring :=
  let step :=
    match s with
    | c :: s' => c :: scan r f global 0 (c :: b) s'
    | [] => []
    end in
  match skip with
  | S n =>
      match s with
      | c :: s' => scan r f global n (c :: b) s'
      | [] => []
      end
  | O =>
      match exec r b s with
      | Some y =>
          f (matched b y) (caps y) (rev b) (rest y) ++
          (if global then
             match matched b y with
             | [] => step
             | _ :: m' =>
                 match s with
                 | c :: s' => scan r f global (length m') (c :: b) s'
                 | [] => []
                 end
             end
           else rest y)
      | None => step
      end
  end.

Definition replace_all (r : regex) (f : replacer) (s : jsstring) : jsstring :=
  scan r f true 0 [] s.

Definition replace_first (r : regex) (f : replacer) (s : jsstring) : jsstring :=
  scan r f false 0 [] s.

Definition startsWith (s : jsstring) (c : string) : bool :=
  match s with
  | x :: _ => chr c x
  | [] => false
  end.

(** [s.split('\n')] *)
Fixpoint jslines (s : jsstring) : list jsstring :=
  match s with
  | [] => [[]]
  | c :: s' =>
      if newline c then [] :: jslines s'
      else match jslines s' with
           | l :: ls => (c :: l) :: ls
           | [] => [[c]]
           end
  end.

(** Truthiness of an optional flag: [undefined] and [false] are falsy. *)
Definition truthy (o : option bool) : bool :=
  match o with
  | Some true => true
  | _ => false
  end.

End JS.

(* ===================================================================== *)
(** * docx2ascii.ts                                                       *)
(* ===================================================================== *)

Module Docx2Ascii.
Import JS.

Inductive CodeBlockStyle := fenced | indented.

(** [DocxToAsciidocOptions]. Every field is optional. [headingLevel] is
    documented as 0-5 and is a natural number here; [attributes] is the
    record in the order [Object.entries] enumerates it. *)
Record DocxToAsciidocOptions := Options {
  headingLevel : option nat;
  includeAttributes : option bool;
  attributes : option (list (jsstring * jsstring));
  preserveLineBreaks : option bool;
  codeBlockStyle : option CodeBlockStyle;
  includeToc : option bool
}.

Definition no_options : DocxToAsciidocOptions :=
  Options None None None None None None.

(** ** markdownToAsciidoc *)

(** [/^(#{1,6})\s+(.+)$/gm] *)
Definition re_header : regex :=
  cat [LineStart; Group (between (chr "#") 1 6); oneOrMore cls_s;
       Group (oneOrMore dot); LineEnd].

(** [(match, hashes, content) => '='.repeat(level) + ' ' + content] with
    [level = hashes.length + (options.headingLevel || 0)] *)
Definition header_replacer (options : DocxToAsciidocOptions) : replacer :=
  fun _ caps _ _ =>
    let hashes := nth 0 caps [] in
    let content := nth 1 caps [] in
    let level := length hashes + default 0 (headingLevel options) in
    repeat 61%N level ++ str " " ++ content.

(** [/\*\*(.*?)\*\*/g] *)
Definition re_bold : regex :=
  cat [Char "*"; Char "*"; Group (lazyStar dot); Char "*"; Char "*"].

(** [/_(.*?)_/g] *)
Definition re_italic : regex :=
  cat [Char "_"; Group (lazyStar dot); Char "_"].

(** [/```(\w+)\n([\s\S]*?)```/g] *)
Definition re_code_lang : regex :=
  cat [Char "`"; Char "`"; Char "`"; Group (oneOrMore cls_w); Class newline;
       Group (lazyStar any); Char "`"; Char "`"; Char "`"].

(** [(match, lang, code) => `[source,${lang}]\n----\n${code}----\n`] *)
Definition code_lang_replacer : replacer :=
  fun _ caps _ _ =>
    let lang := nth 0 caps [] in
    let code := nth 1 caps [] in
    str "[source," ++ lang ++ str "]" ++ [nl] ++ str "----" ++ [nl] ++
    code ++ str "----" ++ [nl].

(** [/```\n([\s\S]*?)```/g] *)
Definition re_code : regex :=
  cat [Char "`"; Char "`"; Char "`"; Class newline;
       Group (lazyStar any); Char "`"; Char "`"; Char "`"].

(** [/`([^`]+)`/g] *)
Definition re_inline_code : regex :=
  cat [Char "`"; Group (oneOrMore (noneOf [chr "`"])); Char "`"].

(** [/^>\s+(.+)$/gm] *)
Definition re_quote : regex :=
  cat [LineStart; Char ">"; oneOrMore cls_s; Group (oneOrMore dot); LineEnd].

(** [/\[(.*?)\]\((.*?)\)/g] *)
Definition re_link : regex :=
  cat [Char "["; Group (lazyStar dot); Char "]"; Char "(";
       Group (lazyStar dot); Char ")"].

(** [/^\d+\.\s+(.+)$/gm] *)
Definition re_ordered : regex :=
  cat [LineStart; oneOrMore cls_d; Char "."; oneOrMore cls_s;
       Group (oneOrMore dot); LineEnd].

Definition convert_headers options := replace_all re_header (header_replacer options).
Definition convert_bold := replace_all re_bold (by_pattern (str "*$1*")).
Definition convert_italic := replace_all re_italic (by_pattern (str "_$1_")).
Definition convert_code_lang := replace_all re_code_lang code_lang_replacer.
Definition convert_code :=
  replace_all re_code (by_pattern (str "----" ++ [nl] ++ str "$1----" ++ [nl])).
Definition convert_inline_code := replace_all re_inline_code (by_pattern (str "`$1`")).
Definition convert_quotes :=
  replace_all re_quote
    (by_pattern (str "[quote]" ++ [nl] ++ str "____" ++ [nl] ++ str "$1" ++ [nl] ++
                 str "____" ++ [nl])).
Definition convert_links := replace_all re_link (by_pattern (str "link:$2[$1]")).
Definition convert_ordered := replace_all re_ordered (by_pattern (str ". $1")).

Definition markdownToAsciidoc (markdown : jsstring) (options : DocxToAsciidocOptions)
    : jsstring :=
  let asciidoc := markdown in
  let asciidoc := convert_headers options asciidoc in
  let asciidoc := convert_bold asciidoc in
  let asciidoc := convert_italic asciidoc in
  let asciidoc := convert_code_lang asciidoc in
  let asciidoc := convert_code asciidoc in
  let asciidoc := convert_inline_code asciidoc in
  let asciidoc := convert_quotes asciidoc in
  let asciidoc := convert_links asciidoc in
  let asciidoc := convert_ordered asciidoc in
  asciidoc.

(** ** postProcessAsciidoc *)

Definition default_title : jsstring := str "= Document Title" ++ [nl; nl].

(** The text of the [attributes] variable. *)
Definition attribute_block (options : DocxToAsciidocOptions) : jsstring :=
  let attributes := [] in
  let attributes := attributes ++ str "Author Name <author@example.com>" ++ [nl] in
  let attributes := attributes ++ str ":toc: left" ++ [nl] in
  let attributes := attributes ++ str ":icons: font" ++ [nl] in
  let attributes := attributes ++ str ":source-highlighter: highlight.js" ++ [nl] in
  let attributes :=
    match Docx2Ascii.attributes options with
    | Some entries =>
        fold_left (fun acc kv => acc ++ str ":" ++ fst kv ++ str ": " ++ snd kv ++ [nl])
                  entries attributes
    | None => attributes
    end in
  let attributes :=
    if truthy (includeToc options)
    then (attributes ++ str ":toc:" ++ [nl]) ++ str ":toclevels: 3" ++ [nl]
    else attributes in
  attributes.

(** [/^(=+\s+.+)$/m] *)
Definition re_first_heading : regex :=
  cat [LineStart;
       Group (cat [oneOrMore (chr "="); oneOrMore cls_s; oneOrMore dot]);
       LineEnd].

(** [/([^=\-*.\n])\n([^=\-*.\n\s])/g] *)
Definition re_join : regex :=
  cat [Group (Class (noneOf [chr "="; chr "-"; chr "*"; chr "."; newline]));
       Class newline;
       Group (Class (noneOf [chr "="; chr "-"; chr "*"; chr "."; newline; cls_s]))].

(** [/\|\n\|/g] *)
Definition re_table : regex :=
  cat [Char "|"; Class newline; Char "|"].

Definition add_title (result : jsstring) : jsstring :=
  if negb (startsWith result "=") then default_title ++ result else result.

Definition insert_attributes (options : DocxToAsciidocOptions) (result : jsstring)
    : jsstring :=
  if truthy (includeAttributes options)
  then replace_first re_first_heading
         (by_pattern (str "$1" ++ [nl] ++ attribute_block options)) result
  else result.

Definition join_lines (options : DocxToAsciidocOptions) (result : jsstring) : jsstring :=
  if negb (truthy (preserveLineBreaks options))
  then replace_all re_join (by_pattern (str "$1 $2")) result
  else result.

Definition fix_tables (result : jsstring) : jsstring :=
  replace_all re_table (by_pattern (str "|" ++ [nl] ++ str "|")) result.

Definition postProcessAsciidoc (asciidoc : jsstring) (options : DocxToAsciidocOptions)
    : jsstring :=
  let result := asciidoc in
  let result := add_title result in
  let result := insert_attributes options result in
  let result := join_lines options result in
  let result := fix_tables result in
  result.

(** Steps 4 and 5 of [convertDocxToAsciidoc]. *)
Definition convert (markdown : jsstring) (options : DocxToAsciidocOptions) : jsstring :=
  postProcessAsciidoc (markdownToAsciidoc markdown options) options.

End Docx2Ascii.

(* ===================================================================== *)
(** * Facts about the matcher                                             *)
(* ===================================================================== *)

Module MatcherFacts.
Import JS.

(** What a successful match of [r] looks like: [m] is the text consumed
    after [b] and before [s'], [cs] the captures it closes. *)
Fixpoint Sem (r : regex) (b m s' : jsstring) (cs : list jsstring) : Prop :=
  match r with
  | Epsilon => m = [] /\ cs = []
  | Class p => exists c, m = [c] /\ p c = true /\ cs = []
  | Repeat p mn mx _ =>
      forallb p m = true /\ mn <= length m /\
      match mx with Some n => length m <= n | None => True end /\ cs = []
  | LineStart => m = [] /\ cs = [] /\ bol b = true
  | LineEnd => m = [] /\ cs = [] /\ eol s' = true
  | Group r1 => exists cs1, Sem r1 b m s' cs1 /\ cs = cs1 ++ [m]
  | Seq r1 r2 =>
      exists m1 m2 c1 c2, m = m1 ++ m2 /\ cs = c1 ++ c2 /\
        Sem r1 b m1 (m2 ++ s') c1 /\ Sem r2 (rev m1 ++ b) m2 s' c2
  end.

Lemma repeat_matcher_sound p g k : forall s mn mx b y,
  repeat_matcher p mn mx g k b s = Some y ->
  exists m s', s = m ++ s' /\ forallb p m = true /\ mn <= length m /\
    match mx with Some n => length m <= n | None => True end /\
    k (rev m ++ b) s' = Some y.
Proof.
  induction s as [|c s IH]; intros mn mx b y H.
  - exists [], []. simpl in H.
    destruct mn; [|destruct g; discriminate].
    assert (k b [] = Some y) by (destruct g; [exact H | destruct (k b []); congruence]).
    repeat split; auto. destruct mx; simpl; lia.
  - simpl in H.
    assert (Hcases : (mn = 0 /\ k b (c :: s) = Some y) \/
                     (p c && max_allows mx = true /\
                      repeat_matcher p (pred mn) (max_pred mx) g k (c :: b) s = Some y)).
    { destruct (p c && max_allows mx) eqn:E.
      - destruct g.
        + destruct (repeat_matcher p (pred mn) (max_pred mx) true k (c :: b) s) eqn:E2.
          * right. split; congruence.
          * left. destruct mn; [auto | discriminate].
        + destruct mn; [| right; split; auto].
          destruct (k b (c :: s)) eqn:E2; [left; split; congruence | right; auto].
      - left. destruct mn.
        + split; auto. destruct g; auto. destruct (k b (c :: s)); congruence.
        + destruct g; discriminate. }
    destruct Hcases as [[-> Hk] | [Hp Hrec]].
    + exists [], (c :: s). repeat split; auto. destruct mx; simpl; lia.
    + apply andb_true_iff in Hp as [Hp Hmx].
      apply IH in Hrec as (m & s' & -> & Hall & Hmn & Hmax & Hk).
      exists (c :: m), s'. simpl. rewrite Hp, Hall.
      repeat split; auto.
      * lia.
      * destruct mx as [[|n]|]; simpl in *; try discriminate; auto. lia.
      * rewrite <- app_assoc. exact Hk.
Qed.

Lemma matcher_sound : forall r k x y,
  matcher r k x = Some y ->
  exists m s' cs, rest x = m ++ s' /\ Sem r (bef x) m s' cs /\
    k (State (rev m ++ bef x) s' (caps x ++ cs)) = Some y.
Proof.
  induction r as [|p|p mn mx g| | |r1 IH1|r1 IH1 r2 IH2]; intros k x y H; simpl in H.
  - exists [], (rest x), []. simpl. rewrite app_nil_r. destruct x; auto.
  - destruct (rest x) as [|c s'] eqn:E; [discriminate|].
    destruct (p c) eqn:Ep; [|discriminate].
    exists [c], s', []. simpl. rewrite app_nil_r. eauto 10.
  - apply repeat_matcher_sound in H as (m & s' & E & Hall & Hmn & Hmx & Hk).
    exists m, s', []. simpl. rewrite app_nil_r. auto 10.
  - destruct (bol (bef x)) eqn:E; [|discriminate].
    exists [], (rest x), []. simpl. rewrite app_nil_r. destruct x; auto.
  - destruct (eol (rest x)) eqn:E; [|discriminate].
    exists [], (rest x), []. simpl. rewrite app_nil_r. destruct x; auto.
  - apply IH1 in H as (m & s' & cs & E & HS & Hk). simpl in Hk.
    exists m, s', (cs ++ [m]). split; [auto|]. split; [simpl; eauto|].
    rewrite length_app, length_rev in Hk.
    replace (length m + length (bef x) - length (bef x)) with (length (rev m)) in Hk
      by (rewrite length_rev; lia).
    rewrite firstn_app, Nat.sub_diag, firstn_all in Hk. simpl in Hk.
    rewrite app_nil_r, rev_involutive in Hk.
    rewrite app_assoc. exact Hk.
  - apply IH1 in H as (m1 & s1 & c1 & E1 & HS1 & Hk).
    apply IH2 in Hk as (m2 & s2 & c2 & E2 & HS2 & Hk). simpl in *.
    exists (m1 ++ m2), s2, (c1 ++ c2). subst s1.
    split; [rewrite <- app_assoc; auto|].
    split; [exists m1, m2, c1, c2; auto|].
    rewrite rev_app_distr, <- !app_assoc. rewrite <- app_assoc in Hk. exact Hk.
Qed.

(** A successful attempt splits the input into the matched text and the
    rest, and extends the text before by the matched text. *)
Lemma exec_sound r b s y :
  exec r b s = Some y ->
  exists m, s = m ++ rest y /\ bef y = rev m ++ b /\ Sem r b m (rest y) (caps y) /\
            matched b y = m.
Proof.
  intros H. apply matcher_sound in H as (m & s' & cs & E & HS & Hk).
  simpl in *. injection Hk as <-. simpl. exists m. repeat split; auto.
  unfold matched. simpl. rewrite length_app.
  replace (length (rev m) + length b - length b) with (length (rev m)) by lia.
  rewrite firstn_app, Nat.sub_diag, firstn_all. simpl.
  rewrite app_nil_r. apply rev_involutive.
Qed.

(** ** A necessary condition on the first character *)

Definition zero_width (r : regex) : bool :=
  match r with
  | Epsilon | LineStart | LineEnd => true
  | _ => false
  end.

Fixpoint necessary (r : regex) (b s : jsstring) : bool :=
  match r with
  | Epsilon => true
  | Class p => match s with c :: _ => p c | [] => false end
  | Repeat p mn _ _ =>
      match mn with
      | O => true
      | S _ => match s with c :: _ => p c | [] => false end
      end
  | LineStart => bol b
  | LineEnd => eol s
  | Group r1 => necessary r1 b s
  | Seq r1 r2 => necessary r1 b s && (if zero_width r1 then necessary r2 b s else true)
  end.

Lemma Sem_zero_width r b m s' cs : zero_width r = true -> Sem r b m s' cs -> m = [].
Proof. destruct r; simpl; try discriminate; intuition. Qed.

Lemma Sem_necessary : forall r b m s' cs,
  Sem r b m s' cs -> necessary r b (m ++ s') = true.
Proof.
  induction r as [|p|p mn mx g| | |r1 IH1|r1 IH1 r2 IH2]; intros b m s' cs H; simpl in *.
  - reflexivity.
  - destruct H as (c & -> & Hp & _). exact Hp.
  - destruct H as (Hall & Hmn & _). destruct mn; [reflexivity|].
    destruct m as [|c m]; simpl in *; [lia|].
    apply andb_true_iff in Hall. tauto.
  - tauto.
  - destruct H as (-> & _ & H). exact H.
  - destruct H as (cs1 & H & _). eauto.
  - destruct H as (m1 & m2 & c1 & c2 & -> & _ & H1 & H2).
    rewrite <- app_assoc. rewrite (IH1 _ _ _ _ H1). simpl.
    destruct (zero_width r1) eqn:Z; [|reflexivity].
    rewrite (Sem_zero_width _ _ _ _ _ Z H1) in *. simpl in *. eauto.
Qed.

Lemma exec_necessary r b s y : exec r b s = Some y -> necessary r b s = true.
Proof.
  intros H. apply exec_sound in H as (m & -> & _ & H & _).
  eapply Sem_necessary; eauto.
Qed.

Lemma exec_none r b s : necessary r b s = false -> exec r b s = None.
Proof.
  intros H. destruct (exec r b s) eqn:E; [|reflexivity].
  apply exec_necessary in E. congruence.
Qed.

(** ** Greedy and lazy quantifiers *)

(** A greedy quantifier takes the whole run when the continuation accepts
    what follows the run. *)
Lemma greedy_run p k : forall m mn mx b s y,
  forallb p m = true -> mn <= length m ->
  match mx with Some n => length m <= n | None => True end ->
  match s with c :: _ => p c = false | [] => True end ->
  k (rev m ++ b) s = Some y ->
  repeat_matcher p mn mx true k b (m ++ s) = Some y.
Proof.
  induction m as [|c m IH]; intros mn mx b s y Hall Hmn Hmx Hs Hk; simpl in *.
  - assert (mn = 0) as -> by lia.
    destruct s as [|c s]; simpl; [exact Hk|]. rewrite Hs. simpl. exact Hk.
  - apply andb_true_iff in Hall as [Hc Hall]. rewrite Hc.
    assert (max_allows mx = true) as -> by (destruct mx as [[|n]|]; simpl; auto; lia).
    simpl. rewrite (IH (pred mn) (max_pred mx) (c :: b) s y); auto.
    + lia.
    + destruct mx; simpl; auto. lia.
    + rewrite <- app_assoc in Hk. exact Hk.
Qed.

(** A lazy star stops at the first place where the continuation accepts. *)
Lemma lazy_first p k : forall m b s y,
  forallb p m = true ->
  (forall m1 c m2, m = m1 ++ c :: m2 -> k (rev m1 ++ b) (c :: m2 ++ s) = None) ->
  k (rev m ++ b) s = Some y ->
  repeat_matcher p 0 None false k b (m ++ s) = Some y.
Proof.
  induction m as [|c m IH]; intros b s y Hall Hfail Hk; simpl in *.
  - destruct s; simpl; rewrite Hk; reflexivity.
  - pose proof (Hfail [] c m eq_refl) as H0. simpl in H0. rewrite H0.
    apply andb_true_iff in Hall as [Hc Hall]. rewrite Hc. simpl.
    apply IH; auto.
    + intros m1 c' m2 ->. specialize (Hfail (c :: m1) c' m2 eq_refl).
      simpl in Hfail. rewrite <- app_assoc in Hfail. exact Hfail.
    + rewrite <- app_assoc in Hk. exact Hk.
Qed.

(** The text a group captures. *)
Lemma capture_text (m b l : jsstring) :
  l = rev m ++ b -> rev (firstn (length l - length b) l) = m.
Proof.
  intros ->. rewrite length_app.
  replace (length (rev m) + length b - length b) with (length (rev m)) by lia.
  rewrite firstn_app, Nat.sub_diag, firstn_all. simpl.
  rewrite app_nil_r. apply rev_involutive.
Qed.

(** ** The scan of [String.prototype.replace] *)

Section Scan.
Variables (r : regex) (f : replacer) (g : bool).

Lemma scan_miss b c s :
  exec r b (c :: s) = None -> scan r f g 0 b (c :: s) = c :: scan r f g 0 (c :: b) s.
Proof. intros H. simpl. rewrite H. reflexivity. Qed.

Lemma scan_end b : exec r b [] = None -> scan r f g 0 b [] = [].
Proof. intros H. simpl. rewrite H. reflexivity. Qed.

Lemma scan_skip : forall m b s, scan r f g (length m) b (m ++ s) = scan r f g 0 (rev m ++ b) s.
Proof.
  induction m as [|c m IH]; intros b s; [reflexivity|].
  simpl length. simpl app. rewrite <- app_assoc.
  change (scan r f g (S (length m)) b (c :: m ++ s))
    with (scan r f g (length m) (c :: b) (m ++ s)).
  apply IH.
Qed.

(** Text in which no attempt can start is copied. *)
Fixpoint quiet (b p : jsstring) : bool :=
  match p with
  | [] => true
  | c :: p' => negb (necessary r b [c]) && quiet (c :: b) p'
  end.

Lemma necessary_head : forall r0 b c s, necessary r0 b (c :: s) = necessary r0 b [c].
Proof.
  induction r0; intros; simpl; auto.
  rewrite IHr0_1, IHr0_2. reflexivity.
Qed.

Lemma scan_quiet : forall p b s,
  quiet b p = true -> scan r f g 0 b (p ++ s) = p ++ scan r f g 0 (rev p ++ b) s.
Proof.
  induction p as [|c p IH]; intros b s H; [reflexivity|].
  simpl in H. apply andb_true_iff in H as [Hc Hp].
  simpl app. rewrite scan_miss.
  - rewrite IH by exact Hp. rewrite <- app_assoc. reflexivity.
  - apply exec_none. rewrite necessary_head. destruct (necessary r b [c]); auto.
Qed.

Lemma quiet_app : forall p q b, quiet b (p ++ q) = quiet b p && quiet (rev p ++ b) q.
Proof.
  induction p as [|c p IH]; intros q b; simpl; [reflexivity|].
  rewrite IH, <- app_assoc, andb_assoc. reflexivity.
Qed.

End Scan.

(** After a non-empty match the scan resumes behind it. *)
Lemma scan_hit r f b s y :
  exec r b s = Some y -> matched b y <> [] ->
  scan r f true 0 b s =
    f (matched b y) (caps y) (rev b) (rest y) ++ scan r f true 0 (bef y) (rest y).
Proof.
  intros H Hne. pose proof (exec_sound _ _ _ _ H) as (m & Hs & Hb & _ & Hm).
  destruct s as [|c s]; simpl; rewrite H.
  - rewrite Hm in *. destruct m; [congruence | discriminate].
  - f_equal. rewrite Hm in *. destruct m as [|c' m]; [congruence|].
    simpl in Hs. injection Hs as -> ->.
    rewrite scan_skip. rewrite Hb. simpl. rewrite <- app_assoc. reflexivity.
Qed.

Lemma scan_hit_first r f b s y :
  exec r b s = Some y ->
  scan r f false 0 b s = f (matched b y) (caps y) (rev b) (rest y) ++ rest y.
Proof. intros H. destruct s; simpl; rewrite H; reflexivity. Qed.

(** A replacement that writes back the matched text changes nothing. *)
Lemma scan_identity r f :
  (forall b s y, exec r b s = Some y ->
                 f (matched b y) (caps y) (rev b) (rest y) = matched b y) ->
  forall n s b, length s <= n -> scan r f true 0 b s = s.
Proof.
  intros Hf. induction n as [|n IH]; intros s b Hn.
  - destruct s; [|simpl in Hn; lia]. simpl.
    destruct (exec r b []) as [y|] eqn:E; [|reflexivity].
    pose proof (exec_sound _ _ _ _ E) as (m & Hs & _ & _ & Hm).
    rewrite (Hf _ _ _ E), Hm. destruct m; [|discriminate].
    reflexivity.
  - destruct (exec r b s) as [y|] eqn:E.
    + pose proof (exec_sound _ _ _ _ E) as (m & Hs & Hb & _ & Hm).
      destruct m as [|c m].
      * destruct s as [|c s]; simpl; rewrite E, (Hf _ _ _ E), Hm; simpl; [reflexivity|].
        f_equal. apply IH. simpl in Hn. lia.
      * rewrite (scan_hit _ _ _ _ _ E) by (rewrite Hm; discriminate).
        rewrite (Hf _ _ _ E), Hm. rewrite IH.
        -- symmetry. exact Hs.
        -- rewrite Hs in Hn. rewrite length_app in Hn. simpl in Hn. lia.
    + destruct s as [|c s]; [apply scan_end; exact E|].
      rewrite scan_miss by exact E. f_equal. apply IH. simpl in Hn. lia.
Qed.

(** The first place, from left to right, where an attempt succeeds: the
    text before it and the final state of the attempt. *)
Fixpoint search (r : regex) (b s : jsstring) : option (jsstring * state) :=
  match exec r b s with
  | Some y => Some (rev b, y)
  | None =>
      match s with
      | c :: s' => search r (c :: b) s'
      | [] => None
      end
  end.

(** Without the [g] flag the first match is replaced and the text around
    it stays. *)
Lemma scan_first_found r f : forall s b before y,
  search r b s = Some (before, y) ->
  exists p, before = rev b ++ p /\
    scan r f false 0 b s =
      p ++ f (matched (rev before) y) (caps y) before (rest y) ++ rest y.
Proof.
  induction s as [|c s IH]; intros b before y H; simpl in H.
  - destruct (exec r b []) as [y'|] eqn:E; [|discriminate].
    injection H as <- <-. exists []. rewrite app_nil_r. split; [reflexivity|].
    rewrite rev_involutive. apply scan_hit_first. exact E.
  - destruct (exec r b (c :: s)) as [y'|] eqn:E.
    + injection H as <- <-. exists []. rewrite app_nil_r. split; [reflexivity|].
      rewrite rev_involutive. apply scan_hit_first. exact E.
    + apply IH in H as (p & -> & Hp). exists (c :: p). split.
      * simpl. rewrite <- app_assoc. reflexivity.
      * rewrite scan_miss by exact E. rewrite Hp. reflexivity.
Qed.

(** A relation between characters that every replacement respects holds
    between the input and the output of a global replace. *)
Lemma scan_related (R : char -> char -> Prop) r f :
  (forall c, R c c) ->
  (forall b s y, exec r b s = Some y ->
                 Forall2 R (matched b y) (f (matched b y) (caps y) (rev b) (rest y))) ->
  forall n s b, length s <= n -> Forall2 R s (scan r f true 0 b s).
Proof.
  intros Hrefl Hf. induction n as [|n IH]; intros s b Hn.
  - destruct s; [|simpl in Hn; lia]. simpl.
    destruct (exec r b []) as [y|] eqn:E; [|constructor].
    pose proof (exec_sound _ _ _ _ E) as (m & Hs & _ & _ & Hm).
    pose proof (Hf _ _ _ E) as HR. rewrite Hm in *. destruct m; [|discriminate].
    inversion HR. constructor.
  - destruct (exec r b s) as [y|] eqn:E.
    + pose proof (exec_sound _ _ _ _ E) as (m & Hs & Hb & _ & Hm).
      pose proof (Hf _ _ _ E) as HR. destruct m as [|c m].
      * destruct s as [|c s]; simpl; rewrite E; rewrite Hm in *;
          inversion HR; simpl; constructor; auto.
        apply IH. simpl in Hn. lia.
      * rewrite (scan_hit _ _ _ _ _ E) by (rewrite Hm; discriminate).
        rewrite Hs at 1. apply Forall2_app.
        -- rewrite Hm. rewrite Hm in HR. exact HR.
        -- apply IH. rewrite Hs in Hn. rewrite length_app in Hn. simpl in Hn. lia.
    + destruct s as [|c s]; [rewrite scan_end by exact E; constructor|].
      rewrite scan_miss by exact E. constructor; auto. apply IH. simpl in Hn. lia.
Qed.

End MatcherFacts.

(* ===================================================================== *)
(** * Facts about docx2ascii.ts                                           *)
(* ===================================================================== *)

Module Docx2AsciiFacts.
Import JS Docx2Ascii MatcherFacts.

Ltac sem_split :=
  repeat match goal with
         | H : exists _, _ |- _ => destruct H
         | H : _ /\ _ |- _ => destruct H
         end.

Lemma chr_true s c : chr s c = true -> [c] = str s.
Proof.
  unfold chr. destruct (str s) as [|y [|]]; try discriminate.
  intros H. apply N.eqb_eq in H. congruence.
Qed.

Lemma newline_true c : newline c = true -> c = nl.
Proof. apply N.eqb_eq. Qed.

(** ** The substitutions that write back what they matched *)

Lemma convert_italic_id s : convert_italic s = s.
Proof.
  unfold convert_italic, replace_all. apply scan_identity with (n := length s); [|lia].
  intros b s0 y E. apply exec_sound in E as (m & _ & _ & HS & ->).
  simpl in HS. sem_split. subst.
  repeat match goal with H : chr _ _ = true |- _ => apply chr_true in H; injection H as -> end.
  destruct y as [yb yr yc]. simpl in *. subst yc. simpl.
  unfold by_pattern. simpl. rewrite ?app_nil_r. reflexivity.
Qed.

Lemma convert_inline_code_id s : convert_inline_code s = s.
Proof.
  unfold convert_inline_code, replace_all. apply scan_identity with (n := length s); [|lia].
  intros b s0 y E. apply exec_sound in E as (m & _ & _ & HS & ->).
  simpl in HS. sem_split. subst.
  repeat match goal with H : chr _ _ = true |- _ => apply chr_true in H; injection H as -> end.
  destruct y as [yb yr yc]. simpl in *. subst yc. simpl.
  unfold by_pattern. simpl. rewrite ?app_nil_r. reflexivity.
Qed.

Lemma fix_tables_id s : fix_tables s = s.
Proof.
  unfold fix_tables, replace_all. apply scan_identity with (n := length s); [|lia].
  intros b s0 y E. apply exec_sound in E as (m & _ & _ & HS & ->).
  simpl in HS. sem_split. subst.
  repeat match goal with
         | H : chr _ _ = true |- _ => apply chr_true in H; injection H as ->
         | H : newline _ = true |- _ => apply newline_true in H; subst
         end.
  reflexivity.
Qed.

(** ** Where a substitution can start

    [guards r anchored t]: an attempt of [r] can only succeed on a character
    of class [t], and for an anchored pattern only at the start of a line. *)

Definition guards (r : regex) (anchored : bool) (t : char -> bool) : Prop :=
  forall b c, necessary r b [c] = true ->
              (anchored = true -> bol b = true) /\ t c = true.

Lemma guards_header : guards re_header true (chr "#").
Proof. intros b c H. simpl in H. rewrite !andb_true_iff in H. tauto. Qed.

Lemma guards_bold : guards re_bold false (chr "*").
Proof. intros b c H. simpl in H. rewrite !andb_true_iff in H. split; [discriminate | tauto]. Qed.

Lemma guards_code_lang : guards re_code_lang false (chr "`").
Proof. intros b c H. simpl in H. rewrite !andb_true_iff in H. split; [discriminate | tauto]. Qed.

Lemma guards_code : guards re_code false (chr "`").
Proof. intros b c H. simpl in H. rewrite !andb_true_iff in H. split; [discriminate | tauto]. Qed.

Lemma guards_quote : guards re_quote true (chr ">").
Proof. intros b c H. simpl in H. rewrite !andb_true_iff in H. tauto. Qed.

Lemma guards_link : guards re_link false (chr "[").
Proof. intros b c H. simpl in H. rewrite !andb_true_iff in H. split; [discriminate | tauto]. Qed.

Lemma guards_ordered : guards re_ordered true cls_d.
Proof. intros b c H. simpl in H. rewrite !andb_true_iff in H. tauto. Qed.

Lemma guards_first_heading : guards re_first_heading true (chr "=").
Proof. intros b c H. simpl in H. rewrite !andb_true_iff in H. tauto. Qed.

(** Characters on which no substitution of [markdownToAsciidoc] other than
    the italic and inline-code ones (which change nothing) can start
    anywhere, and characters on which none can start at the start of a
    line. *)
Definition inline_trigger : char -> bool := oneOf [chr "*"; chr "`"; chr "["].
Definition line_trigger : char -> bool := oneOf [chr "#"; chr ">"; cls_d].

(** [calm b p]: the text [p], read after [b], holds no inline trigger and
    no line trigger at the start of a line. *)
Fixpoint calm (b p : jsstring) : bool :=
  match p with
  | [] => true
  | c :: p' => negb (inline_trigger c) && negb (bol b && line_trigger c) && calm (c :: b) p'
  end.

(** [free t p]: no character of [p] is in the class [t]. *)
Definition free (t : char -> bool) (p : jsstring) : bool :=
  forallb (fun c => negb (t c)) p.

Lemma necessary_nil : forall r b, necessary r b [] = true -> necessary r b [nl] = true.
Proof.
  induction r; simpl; intros b H; auto; try discriminate.
  - destruct min; [reflexivity | discriminate].
  - apply andb_true_iff in H as [H1 H2]. rewrite IHr1 by exact H1.
    destruct (zero_width r1); simpl; auto.
Qed.

Section Quiet.
Variables (r : regex) (anchored : bool) (t : char -> bool).
Hypothesis G : guards r anchored t.

Lemma quiet_free : forall p b, free t p = true -> quiet r b p = true.
Proof.
  induction p as [|c p IH]; intros b H; [reflexivity|].
  simpl in *. apply andb_true_iff in H as [Hc Hp]. rewrite IH by exact Hp.
  destruct (necessary r b [c]) eqn:E; [|reflexivity].
  apply G in E as [_ E]. rewrite E in Hc. discriminate.
Qed.

Lemma quiet_inside : forall p b,
  anchored = true -> bol b = false -> forallb dot p = true -> quiet r b p = true.
Proof.
  induction p as [|c p IH]; intros b Ha Hb H; [reflexivity|].
  simpl in *. apply andb_true_iff in H as [Hc Hp]. rewrite IH; auto.
  - destruct (necessary r b [c]) eqn:E; [|reflexivity].
    apply G in E as [E _]. rewrite E in Hb; auto.
  - change (bol (c :: b)) with (isLineTerminator c).
    unfold dot in Hc. destruct (isLineTerminator c); [discriminate | reflexivity].
Qed.

Lemma quiet_calm : forall p b,
  (forall c, t c = true -> if anchored then line_trigger c = true else inline_trigger c = true) ->
  calm b p = true -> quiet r b p = true.
Proof.
  induction p as [|c p IH]; intros b Ht H; [reflexivity|].
  simpl in *. rewrite !andb_true_iff in H. destruct H as [[Hi Hl] Hp].
  rewrite IH by auto.
  destruct (necessary r b [c]) eqn:E; [|reflexivity].
  apply G in E as [Eb Ec]. specialize (Ht c Ec). destruct anchored.
  - rewrite Eb, Ht in Hl by reflexivity. discriminate.
  - rewrite Ht in Hi. discriminate.
Qed.

(** At the end of the input and on a line terminator no attempt starts. *)
Lemma scan_tail f g b s :
  (forall c, t c = true -> isLineTerminator c = false) ->
  eol s = true ->
  exists s', scan r f g 0 b s = s' /\ hd_error s' = hd_error s.
Proof.
  intros Ht Hs. destruct s as [|c s].
  - exists []. split; [|reflexivity]. apply scan_end. apply exec_none.
    destruct (necessary r b []) eqn:E; [|reflexivity].
    apply necessary_nil in E. apply G in E as [_ E]. apply Ht in E. discriminate.
  - exists (c :: scan r f g 0 (c :: b) s). split; [|reflexivity].
    apply scan_miss. apply exec_none. rewrite necessary_head.
    destruct (necessary r b [c]) eqn:E; [|reflexivity].
    apply G in E as [_ E]. apply Ht in E. simpl in Hs. congruence.
Qed.

End Quiet.

(** ** The heading substitution *)

(** [n] characters [#]. *)
Definition hashes (n : nat) : jsstring := repeat 35%N n.

(** The first character of a text is not white space (so the text is not
    empty). *)
Definition starts_with_text (text : jsstring) : Prop :=
  match text with
  | c :: _ => cls_s c = false
  | [] => False
  end.







(** How each pattern of [markdownToAsciidoc] is triggered. *)
Definition trigger_ok (anchored : bool) (t : char -> bool) : Prop :=
  forall c, t c = true ->
    (if anchored then line_trigger c = true else inline_trigger c = true) /\
    isLineTerminator c = false.

Lemma trigger_hash : trigger_ok true (chr "#").
Proof. intros c H. apply chr_true in H. injection H as ->. split; reflexivity. Qed.

Lemma trigger_gt : trigger_ok true (chr ">").
Proof. intros c H. apply chr_true in H. injection H as ->. split; reflexivity. Qed.

Lemma trigger_star : trigger_ok false (chr "*").
Proof. intros c H. apply chr_true in H. injection H as ->. split; reflexivity. Qed.

Lemma trigger_tick : trigger_ok false (chr "`").
Proof. intros c H. apply chr_true in H. injection H as ->. split; reflexivity. Qed.

Lemma trigger_bracket : trigger_ok false (chr "[").
Proof. intros c H. apply chr_true in H. injection H as ->. split; reflexivity. Qed.

Lemma trigger_digit : trigger_ok true cls_d.
Proof.
  intros c H. split.
  - unfold line_trigger, oneOf. simpl. rewrite H, !orb_true_r. reflexivity.
  - unfold cls_d in H. apply andb_true_iff in H as [H1 H2].
    apply N.leb_le in H1, H2. unfold isLineTerminator.
    repeat (apply orb_false_iff; split); apply N.eqb_neq; lia.
Qed.

Lemma eol_hd (x x' : jsstring) : hd_error x' = hd_error x -> eol x = true -> eol x' = true.
Proof. destruct x, x'; simpl; intros H; try discriminate; auto. injection H as ->. auto. Qed.





(** ** The fenced code substitutions *)



Lemma free_split t (p m1 m2 : jsstring) c :
  free t p = true -> p = m1 ++ c :: m2 -> t c = false.
Proof.
  intros H ->. unfold free in H. rewrite forallb_app in H.
  apply andb_true_iff in H as [_ H]. simpl in H.
  apply andb_true_iff in H as [H _]. apply negb_true_iff in H. exact H.
Qed.














Lemma calm_pre_quiet r anchored t pre :
  guards r anchored t -> trigger_ok anchored t -> calm [] pre = true ->
  quiet r [] pre = true.
Proof.
  intros G T H. apply (quiet_calm r anchored t G); auto.
  intros c Hc. apply T. exact Hc.
Qed.






(** ** postProcessAsciidoc *)

(** The default title is the first heading of a document it was put before. *)
Lemma exec_default_title d :
  exec re_first_heading [] (default_title ++ d) =
    Some (State (rev (str "= Document Title")) (nl :: nl :: d) [str "= Document Title"]).
Proof. vm_compute. reflexivity. Qed.




(** ** Attributes *)

Lemma first_heading_capture b s y :
  exec re_first_heading b s = Some y -> caps y = [matched b y].
Proof.
  intros E. apply exec_sound in E as (m & _ & _ & HS & ->).
  simpl in HS. sem_split. subst. rewrite H0.
  simpl. rewrite !app_nil_r. reflexivity.
Qed.

(** What the line-joining substitution does to one character: it keeps it,
    or turns a newline into a space. *)
Definition joined (a c : char) : Prop := a = c \/ (a = nl /\ c = 32%N).

Lemma join_lines_joined options s : Forall2 joined s (join_lines options s).
Proof.
  assert (Hrefl : forall l, Forall2 joined l l)
    by (induction l; constructor; auto; left; reflexivity).
  unfold join_lines. destruct (negb (truthy (preserveLineBreaks options))); [|apply Hrefl].
  unfold replace_all. apply scan_related with (n := length s); [left; reflexivity | | lia].
  intros b s0 y E. apply exec_sound in E as (m & _ & _ & HS & ->).
  simpl in HS. sem_split. subst. rewrite H0.
  match goal with H : newline _ = true |- _ => apply newline_true in H; subst end.
  unfold by_pattern. simpl.
  constructor; [left; reflexivity|].
  constructor; [right; split; reflexivity|].
  constructor; [left; reflexivity | constructor].
Qed.

(** Text without a newline survives the joining where it stands. *)
Lemma joined_keeps : forall t t', Forall2 joined t t' -> free newline t = true -> t' = t.
Proof.
  induction 1 as [|a c t t' Hac _ IH]; intros Hf; [reflexivity|].
  simpl in Hf. apply andb_true_iff in Hf as [Ha Hf]. rewrite IH by exact Hf.
  destruct Hac as [-> | [-> _]]; [reflexivity | discriminate].
Qed.

Lemma joined_split x t y out :
  Forall2 joined (x ++ t ++ y) out -> free newline t = true ->
  exists x' y', out = x' ++ t ++ y' /\ length x' = length x /\ Forall2 joined y y'.
Proof.
  intros H Hf.
  apply Forall2_app_inv_l in H as (x' & r & Hx & Hr & ->).
  apply Forall2_app_inv_l in Hr as (t' & y' & Ht & Hy & ->).
  rewrite (joined_keeps _ _ Ht Hf). exists x', y'. repeat split; auto.
  symmetry. eapply Forall2_length; eauto.
Qed.

(** The attribute block for the attribute map [{author: "A", email: "b@x.com"}]. *)
Definition author_email : list (jsstring * jsstring) :=
  [(str "author", str "A"); (str "email", str "b@x.com")].

Definition toc_lines (options : DocxToAsciidocOptions) : jsstring :=
  if truthy (includeToc options)
  then str ":toc:" ++ [nl] ++ str ":toclevels: 3" ++ [nl]
  else [].

Lemma attribute_block_author_email options :
  attributes options = Some author_email ->
  attribute_block options =
    lines ["Author Name <author@example.com>"; ":toc: left"; ":icons: font";
           ":source-highlighter: highlight.js"; ":author: A"; ":email: b@x.com"] ++
    [nl] ++ toc_lines options.
Proof.
  intros H. unfold attribute_block, toc_lines. rewrite H.
  destruct (truthy (includeToc options)); reflexivity.
Qed.

Lemma insert_attributes_found options d before y :
  truthy (includeAttributes options) = true ->
  attributes options = Some author_email ->
  search re_first_heading [] d = Some (before, y) ->
  insert_attributes options d =
    before ++ matched (rev before) y ++ [nl] ++ attribute_block options ++ rest y.
Proof.
  intros Hi Ha Hs. unfold insert_attributes, replace_first. rewrite Hi.
  destruct (scan_first_found _ (by_pattern (str "$1" ++ [nl] ++ attribute_block options))
              _ _ _ _ Hs) as (p & Hp & ->).
  simpl in Hp. subst p. f_equal.
  assert (E : exists s, exec re_first_heading (rev before) s = Some y).
  { clear - Hs. revert Hs. generalize (@nil char) at 1. intros b0 Hs.
    revert b0 Hs. induction d as [|c d IH]; intros b0 Hs; simpl in Hs.
    - destruct (exec re_first_heading b0 []) eqn:E; [|discriminate].
      injection Hs as <- <-. rewrite rev_involutive. eauto.
    - destruct (exec re_first_heading b0 (c :: d)) eqn:E.
      + injection Hs as <- <-. rewrite rev_involutive. eauto.
      + eauto. }
  destruct E as (s & E). rewrite (first_heading_capture _ _ _ E).
  rewrite (attribute_block_author_email options Ha).
  set (h := matched (rev before) y).
  assert (Hsub : by_pattern
                   (str "$1" ++ [nl] ++
                    lines ["Author Name <author@example.com>"; ":toc: left"; ":icons: font";
                           ":source-highlighter: highlight.js"; ":author: A";
                           ":email: b@x.com"] ++ [nl] ++ toc_lines options)
                   h [h] before (rest y) =
                 h ++ [nl] ++
                 lines ["Author Name <author@example.com>"; ":toc: left"; ":icons: font";
                        ":source-highlighter: highlight.js"; ":author: A";
                        ":email: b@x.com"] ++ [nl] ++ toc_lines options).
  { unfold by_pattern, toc_lines. destruct (truthy (includeToc options)); reflexivity. }
  rewrite Hsub. rewrite <- !app_assoc. reflexivity.
Qed.

(** C7 (as amended). When [includeAttributes] is set, the attribute map is
    [{author: "A", email: "b@x.com"}] and the document has a first heading
    line, the output holds the texts [:author: A] and [:email: b@x.com], in
    this order, after the first heading; when [preserveLineBreaks] is set
    they are lines of their own, in the attribute block that follows the
    heading line. *)
Theorem attributes_after_heading md options before y :
  truthy (includeAttributes options) = true ->
  attributes options = Some author_email ->
  search re_first_heading [] (add_title (markdownToAsciidoc md options)) = Some (before, y) ->
  (exists a b c,
     convert md options = a ++ str ":author: A" ++ b ++ str ":email: b@x.com" ++ c /\
     length (before ++ matched (rev before) y) <= length a) /\
  (truthy (preserveLineBreaks options) = true ->
     convert md options =
       before ++ matched (rev before) y ++ [nl] ++
       lines ["Author Name <author@example.com>"; ":toc: left"; ":icons: font";
              ":source-highlighter: highlight.js"; ":author: A"; ":email: b@x.com"] ++
       [nl] ++ toc_lines options ++ rest y).
Proof.
  intros Hi Ha Hs. unfold convert, postProcessAsciidoc.
  rewrite fix_tables_id, (insert_attributes_found _ _ _ _ Hi Ha Hs).
  rewrite (attribute_block_author_email options Ha).
  set (h := matched (rev before) y). split.
  - set (l4 := lines ["Author Name <author@example.com>"; ":toc: left"; ":icons: font";
                      ":source-highlighter: highlight.js"]).
    match goal with |- context [join_lines options ?d] =>
      replace d with ((before ++ h ++ [nl] ++ l4 ++ [nl]) ++ str ":author: A" ++
                      [nl] ++ str ":email: b@x.com" ++ [nl] ++ toc_lines options ++ rest y)
        by (rewrite <- !app_assoc; reflexivity)
    end.
    match goal with |- context [join_lines options ?d] =>
      pose proof (join_lines_joined options d) as HJ
    end.
    apply joined_split in HJ as (a & r & E & Hlen & Hr); [|reflexivity].
    apply (joined_split [nl] (str ":email: b@x.com")) in Hr as (n & c & -> & _ & _);
      [|reflexivity].
    exists a, n, c. split; [exact E|].
    rewrite Hlen, !length_app. lia.
  - intros Hp. unfold join_lines. rewrite Hp. cbn [negb]. rewrite <- !app_assoc. reflexivity.
Qed.

(** ** Concrete documents *)

Definition preserving : DocxToAsciidocOptions :=
  Options None None None (Some true) None None.

Definition with_author_email (preserve : option bool) : DocxToAsciidocOptions :=
  Options None (Some true) (Some author_email) preserve None None.



(** C2: the code joins on the character before the newline, not on how the
    line begins. Two plain lines of which the first ends in a full stop stay
    apart, and a heading line is joined with the line after it. *)
Theorem join_looks_at_line_end :
  postProcessAsciidoc (lines ["Hello."; "World"]) no_options =
    lines ["= Document Title"; ""; "Hello."; "World"] /\
  postProcessAsciidoc (lines ["= Title"; "text"]) no_options = str "= Title text".
Proof. split; vm_compute; reflexivity. Qed.



Lemma attributes_after_heading_witness :
  convert (lines ["# T"; ""; "text"]) (with_author_email (Some true)) =
    lines ["= T"; "Author Name <author@example.com>"; ":toc: left"; ":icons: font";
           ":source-highlighter: highlight.js"; ":author: A"; ":email: b@x.com"; ""; "";
           "text"].
Proof.
  exact (proj2 (attributes_after_heading (lines ["# T"; ""; "text"]) (with_author_email (Some true))
                  [] (State (rev (str "= T")) (nl :: nl :: str "text") [str "= T"])
                  eq_refl eq_refl eq_refl) eq_refl).
Defined.

(** C7, as stated, fails: unless [preserveLineBreaks] is set the attribute
    entries are joined into one line with the heading. *)
Lemma attributes_joined :
  jslines (convert (str "# T") (with_author_email None)) =
    [str "= T Author Name <author@example.com> :toc: left :icons: font :source-highlighter: highlight.js :author: A :email: b@x.com";
     []].
Proof. vm_compute. reflexivity. Qed.

End Docx2AsciiFacts.

(* ===================================================================== *)
(** * More about markdownToAsciidoc and postProcessAsciidoc               *)
(* ===================================================================== *)

Module MarkdownFacts.
Import JS Docx2Ascii MatcherFacts Docx2AsciiFacts.

(** ** Passing over text *)

(** Text in which no attempt of a pattern can start, followed by the end of
    a line, passes the substitution unchanged. *)
Lemma step_quiet r anchored t f p x :
  guards r anchored t -> (forall c, t c = true -> isLineTerminator c = false) ->
  quiet r [] p = true -> eol x = true ->
  exists x', replace_all r f (p ++ x) = p ++ x' /\ hd_error x' = hd_error x.
Proof.
  intros G T Hp Hx. unfold replace_all. rewrite (scan_quiet r f true p [] x Hp).
  destruct (scan_tail r anchored t G f true (rev p ++ []) x T Hx) as (x' & E & Hh).
  exists x'. rewrite E. auto.
Qed.

(** An anchored pattern finds nothing in the rest of a line whose first
    character is not its trigger. *)
Lemma quiet_line r t b c L :
  guards r true t -> t c = false -> forallb dot (c :: L) = true ->
  quiet r b (c :: L) = true.
Proof.
  intros G Hc Hd. simpl in Hd. apply andb_true_iff in Hd as [Hdc HdL].
  cbn [quiet]. apply andb_true_iff. split.
  - destruct (necessary r b [c]) eqn:E; [|reflexivity].
    apply G in E as [_ E]. congruence.
  - apply (quiet_inside r true t G); auto.
    change (bol (c :: b)) with (isLineTerminator c).
    unfold dot in Hdc. destruct (isLineTerminator c); [discriminate | reflexivity].
Qed.

Lemma pass_free r t f pre L x :
  guards r false t -> trigger_ok false t ->
  calm [] pre = true -> free t L = true -> eol x = true ->
  exists x', replace_all r f (pre ++ L ++ x) = pre ++ L ++ x' /\ hd_error x' = hd_error x.
Proof.
  intros G T Hpre HL Hx.
  destruct (step_quiet r false t f (pre ++ L) x G) as (x' & E & H); auto.
  - intros c Hc. apply T. exact Hc.
  - rewrite quiet_app. apply andb_true_iff; split.
    + apply (calm_pre_quiet r false t); auto.
    + apply (quiet_free r false t G); auto.
  - exists x'. rewrite <- !app_assoc in E. auto.
Qed.

(** The first character of [L], if any, is not in the class [t]. *)
Definition starts_off (t : char -> bool) (L : jsstring) : Prop :=
  match L with
  | c :: _ => t c = false
  | [] => True
  end.

Lemma pass_anchored r t f pre L x :
  guards r true t -> trigger_ok true t ->
  calm [] pre = true -> starts_off t L -> forallb dot L = true -> eol x = true ->
  exists x', replace_all r f (pre ++ L ++ x) = pre ++ L ++ x' /\
             hd_error x' = hd_error x.
Proof.
  intros G T Hpre Hc HL Hx.
  destruct (step_quiet r true t f (pre ++ L) x G) as (x' & E & H); auto.
  - intros c' Hc'. apply T. exact Hc'.
  - rewrite quiet_app. apply andb_true_iff; split.
    + apply (calm_pre_quiet r true t); auto.
    + destruct L as [|c L]; [reflexivity|]. apply quiet_line with (t := t); auto.
  - exists x'. rewrite <- !app_assoc in E. auto.
Qed.

(** ** Substitutions without effect *)

(** The italic and the inline-code substitutions of [markdownToAsciidoc]
    and the table substitution of [postProcessAsciidoc] write back exactly
    what they matched: as functions on strings they are the identity. *)
Theorem substitutions_without_effect (s : jsstring) :
  convert_italic s = s /\ convert_inline_code s = s /\ fix_tables s = s.
Proof.
  split; [apply convert_italic_id | split].
  - apply convert_inline_code_id.
  - apply fix_tables_id.
Qed.

(** ** Text without markup *)

(** Somewhere in the text two asterisks follow each other. *)
Fixpoint double_star (s : jsstring) : bool :=
  match s with
  | [] => false
  | c :: s' =>
      match s' with
      | d :: _ => chr "*" c && chr "*" d
      | [] => false
      end || double_star s'
  end.

(** No line of the text, read after [b], begins with [#], [>] or a digit. *)
Fixpoint line_starts_clear (b p : jsstring) : bool :=
  match p with
  | [] => true
  | c :: p' => negb (bol b && line_trigger c) && line_starts_clear (c :: b) p'
  end.

(** Text without a backquote, a [[], two asterisks in a row, or a line that
    begins with [#], [>] or a digit. *)
Definition unmarked (s : jsstring) : bool :=
  free (chr "`") s && free (chr "[") s && negb (double_star s) && line_starts_clear [] s.

Lemma quiet_line_starts r t :
  guards r true t -> trigger_ok true t ->
  forall p b, line_starts_clear b p = true -> quiet r b p = true.
Proof.
  intros G T. induction p as [|c p IH]; intros b H; [reflexivity|].
  cbn [line_starts_clear] in H. apply andb_true_iff in H as [Hc Hp].
  cbn [quiet]. rewrite IH by exact Hp. rewrite andb_true_r.
  destruct (necessary r b [c]) eqn:E; [|reflexivity].
  apply G in E as [Eb Ec]. rewrite Eb in Hc by reflexivity.
  apply T in Ec as [Ec _]. rewrite Ec in Hc. discriminate.
Qed.

(** The bold pattern only matches at two asterisks. *)
Lemma bold_shape b s y :
  exec re_bold b s = Some y -> exists z, s = 42%N :: 42%N :: z.
Proof.
  intros E. apply exec_sound in E as (m & Hs & _ & HS & _).
  simpl in HS. sem_split. subst.
  repeat match goal with H : chr _ _ = true |- _ => apply chr_true in H; injection H as -> end.
  simpl. eauto.
Qed.

Lemma no_bold f : forall s b,
  double_star s = false -> scan re_bold f true 0 b s = s.
Proof.
  induction s as [|c s IH]; intros b H.
  - apply scan_end. destruct (exec re_bold b []) eqn:E; [|reflexivity].
    apply bold_shape in E as (z & Hz). discriminate.
  - cbn [double_star] in H. apply orb_false_iff in H as [Hc Hs].
    rewrite scan_miss; [rewrite IH by exact Hs; reflexivity|].
    destruct (exec re_bold b (c :: s)) eqn:E; [|reflexivity].
    apply bold_shape in E as (z & Hz). injection Hz as -> ->. discriminate.
Qed.

(** Text in which a pattern can start nowhere is returned as it is. *)
Lemma quiet_pass r anchored t f s :
  guards r anchored t -> (forall c, t c = true -> isLineTerminator c = false) ->
  quiet r [] s = true -> replace_all r f s = s.
Proof.
  intros G T H. destruct (step_quiet r anchored t f s [] G T H eq_refl) as (x' & E & Hh).
  rewrite app_nil_r in E. rewrite E. destruct x'; [apply app_nil_r | discriminate].
Qed.

(** Text that holds no backquote and no [[], in which no two asterisks
    follow each other and no line begins with [#], [>] or a digit, is
    returned unchanged by [markdownToAsciidoc], whatever the options. So
    are, for one, the items of an unordered list. *)
Theorem unmarked_text_unchanged options s :
  unmarked s = true -> markdownToAsciidoc s options = s.
Proof.
  unfold unmarked. rewrite !andb_true_iff. intros [[[Ht Hb] Hs] Hl].
  apply negb_true_iff in Hs.
  assert (Q : forall r t, guards r true t -> trigger_ok true t -> quiet r [] s = true)
    by (intros r t G T; apply (quiet_line_starts r t G T); exact Hl).
  unfold markdownToAsciidoc, convert_headers, convert_bold, convert_code_lang, convert_code,
    convert_quotes, convert_links, convert_ordered.
  rewrite (quiet_pass _ _ _ _ _ guards_header (fun c H => proj2 (trigger_hash c H)))
    by (apply (Q _ _ guards_header trigger_hash)).
  rewrite (no_bold _ s [] Hs : replace_all re_bold _ s = s).
  rewrite convert_italic_id.
  rewrite (quiet_pass _ _ _ _ _ guards_code_lang (fun c H => proj2 (trigger_tick c H)))
    by (apply (quiet_free _ _ _ guards_code_lang); exact Ht).
  rewrite (quiet_pass _ _ _ _ _ guards_code (fun c H => proj2 (trigger_tick c H)))
    by (apply (quiet_free _ _ _ guards_code); exact Ht).
  rewrite convert_inline_code_id.
  rewrite (quiet_pass _ _ _ _ _ guards_quote (fun c H => proj2 (trigger_gt c H)))
    by (apply (Q _ _ guards_quote trigger_gt)).
  rewrite (quiet_pass _ _ _ _ _ guards_link (fun c H => proj2 (trigger_bracket c H)))
    by (apply (quiet_free _ _ _ guards_link); exact Hb).
  rewrite (quiet_pass _ _ _ _ _ guards_ordered (fun c H => proj2 (trigger_digit c H)))
    by (apply (Q _ _ guards_ordered trigger_digit)).
  reflexivity.
Qed.

Lemma unmarked_text_unchanged_witness :
  markdownToAsciidoc (lines ["This is a test paragraph."; ""; "* Item 1"; "* Item 2"])
                     no_options =
    lines ["This is a test paragraph."; ""; "* Item 1"; "* Item 2"].
Proof. apply unmarked_text_unchanged. reflexivity. Defined.

(** ** Bold text *)

Lemma free_inline t :
  free inline_trigger t = true ->
  free (chr "*") t = true /\ free (chr "`") t = true /\ free (chr "[") t = true.
Proof.
  unfold free. induction t as [|c t IH]; simpl; [auto|].
  intros H. apply andb_true_iff in H as [Hc Ht]. destruct (IH Ht) as (H1 & H2 & H3).
  rewrite H1, H2, H3. unfold inline_trigger, oneOf in Hc. simpl in Hc.
  destruct (chr "*" c), (chr "`" c), (chr "[" c); try discriminate. auto.
Qed.

Lemma free_app t (p q : jsstring) : free t (p ++ q) = free t p && free t q.
Proof. apply forallb_app. Qed.

Lemma exec_bold b t z :
  forallb dot t = true -> free (chr "*") t = true ->
  exec re_bold b (str "**" ++ t ++ str "**" ++ z) =
    Some (State (rev (str "**") ++ rev t ++ rev (str "**") ++ b) z [t]).
Proof.
  intros Hd Hf.
  unfold exec, re_bold, cat, Char, lazyStar.
  change (str "**") with [42%N; 42%N].
  cbn [matcher bef rest caps app]. change (chr "*" 42%N) with true. cbv iota.
  apply lazy_first; auto.
  { intros m1 c m2 E. rewrite (free_split (chr "*") t m1 m2 c Hf E). reflexivity. }
  cbn [app]. change (chr "*" 42%N) with true. cbv iota.
  rewrite (capture_text t (42%N :: 42%N :: b)) by reflexivity.
  cbn [rev app]. rewrite <- ?app_assoc. reflexivity.
Qed.

(** One match in its context: calm text, the matched text [m], text [q] in
    which the pattern finds nothing, and the end of a line. *)
Lemma hit_step r anchored t f pre m bm cs m' q x :
  guards r anchored t -> trigger_ok anchored t ->
  calm [] pre = true -> m <> [] ->
  bm = rev m ++ rev pre ++ [] ->
  exec r (rev pre ++ []) (m ++ q ++ x) = Some (State bm (q ++ x) cs) ->
  (forall before after, f m cs before after = m') ->
  quiet r bm q = true ->
  eol x = true ->
  exists x', replace_all r f (pre ++ m ++ q ++ x) = pre ++ m' ++ q ++ x' /\
             hd_error x' = hd_error x.
Proof.
  intros G T Hpre Hm Hbm E Hf Hq Hx. unfold replace_all.
  rewrite scan_quiet by (apply (calm_pre_quiet r anchored t); auto).
  assert (Hmt : matched (rev pre ++ []) (State bm (q ++ x) cs) = m).
  { unfold matched. cbn [bef]. apply capture_text. exact Hbm. }
  rewrite (scan_hit _ _ _ _ _ E) by (rewrite Hmt; exact Hm).
  rewrite Hmt. cbn [bef rest caps]. rewrite Hf.
  rewrite scan_quiet by exact Hq.
  destruct (scan_tail r anchored t G f true (rev q ++ bm) x) as (x' & E' & Hh); auto.
  { intros c Hc. apply T. exact Hc. }
  exists x'. rewrite E'. auto.
Qed.

Ltac split_all :=
  repeat match goal with
         | |- _ && _ = true => apply andb_true_iff; split
         | |- _ /\ _ => split
         end.

Ltac solve_dot :=
  rewrite ?forallb_app; split_all; first [assumption | reflexivity].

Ltac solve_free :=
  unfold free in *; rewrite ?forallb_app; split_all; first [assumption | reflexivity].

Ltac reassoc := rewrite <- ?app_assoc; reflexivity.

(** A pair of double asterisks around text of one line becomes a pair of
    single asterisks, when the text between them and the rest of the line
    hold no [*], backquote or [[] and what stands before is calm. *)
Theorem bold_rewritten options pre t q post :
  calm [] pre = true ->
  forallb dot t = true -> free inline_trigger t = true ->
  forallb dot q = true -> free inline_trigger q = true ->
  eol post = true ->
  exists out,
    markdownToAsciidoc (pre ++ str "**" ++ t ++ str "**" ++ q ++ post) options =
      pre ++ str "*" ++ t ++ str "*" ++ q ++ out /\
    hd_error out = hd_error post.
Proof.
  intros Hpre Hdt Hft Hdq Hfq Hpost.
  destruct (free_inline t Hft) as (Ht1 & Ht2 & Ht3).
  destruct (free_inline q Hfq) as (Hq1 & Hq2 & Hq3).
  unfold markdownToAsciidoc.
  set (L := str "**" ++ t ++ str "**" ++ q).
  set (L' := str "*" ++ t ++ str "*" ++ q).
  assert (HdL : forallb dot L = true) by (unfold L; solve_dot).
  assert (HdL' : forallb dot L' = true) by (unfold L'; solve_dot).
  (* headings *)
  replace (pre ++ str "**" ++ t ++ str "**" ++ q ++ post) with (pre ++ L ++ post)
    by (unfold L; reassoc).
  destruct (pass_anchored re_header (chr "#") (header_replacer options) pre L post
              guards_header trigger_hash Hpre) as (x1 & E1 & H1); auto; [reflexivity|].
  unfold convert_headers. rewrite E1. clear E1.
  pose proof (eol_hd _ _ H1 Hpost) as K1.
  (* bold *)
  replace (pre ++ L ++ x1) with (pre ++ (str "**" ++ t ++ str "**") ++ q ++ x1)
    by (unfold L; reassoc).
  destruct (hit_step re_bold false (chr "*") (by_pattern (str "*$1*")) pre
              (str "**" ++ t ++ str "**")
              (rev (str "**") ++ rev t ++ rev (str "**") ++ rev pre ++ [])
              [t] (str "*" ++ t ++ str "*") q x1 guards_bold trigger_star Hpre)
    as (x2 & E2 & H2); auto.
  { rewrite !rev_app_distr, <- !app_assoc. reflexivity. }
  { rewrite <- !app_assoc. apply exec_bold; auto. }
  { apply (quiet_free re_bold false (chr "*") guards_bold). exact Hq1. }
  unfold convert_bold. rewrite E2. clear E2. rewrite H1 in H2.
  pose proof (eol_hd _ _ H2 Hpost) as K2.
  rewrite convert_italic_id.
  replace (pre ++ (str "*" ++ t ++ str "*") ++ q ++ x2) with (pre ++ L' ++ x2)
    by (unfold L'; reassoc).
  (* code *)
  destruct (pass_free re_code_lang (chr "`") code_lang_replacer pre L' x2
              guards_code_lang trigger_tick Hpre) as (x3 & E3 & H3); auto;
    [unfold L'; solve_free|].
  unfold convert_code_lang. rewrite E3. clear E3. rewrite H2 in H3.
  pose proof (eol_hd _ _ H3 Hpost) as K3.
  destruct (pass_free re_code (chr "`")
              (by_pattern (str "----" ++ [nl] ++ str "$1----" ++ [nl])) pre L' x3
              guards_code trigger_tick Hpre) as (x4 & E4 & H4); auto;
    [unfold L'; solve_free|].
  unfold convert_code. rewrite E4. clear E4. rewrite H3 in H4.
  pose proof (eol_hd _ _ H4 Hpost) as K4.
  rewrite convert_inline_code_id.
  (* block quotes *)
  destruct (pass_anchored re_quote (chr ">")
              (by_pattern (str "[quote]" ++ [nl] ++ str "____" ++ [nl] ++ str "$1" ++ [nl] ++
                           str "____" ++ [nl])) pre L' x4
              guards_quote trigger_gt Hpre) as (x5 & E5 & H5); auto; [reflexivity|].
  unfold convert_quotes. rewrite E5. clear E5. rewrite H4 in H5.
  pose proof (eol_hd _ _ H5 Hpost) as K5.
  (* links *)
  destruct (pass_free re_link (chr "[") (by_pattern (str "link:$2[$1]")) pre L' x5
              guards_link trigger_bracket Hpre) as (x6 & E6 & H6); auto;
    [unfold L'; solve_free|].
  unfold convert_links. rewrite E6. clear E6. rewrite H5 in H6.
  pose proof (eol_hd _ _ H6 Hpost) as K6.
  (* ordered lists *)
  destruct (pass_anchored re_ordered cls_d (by_pattern (str ". $1")) pre L' x6
              guards_ordered trigger_digit Hpre) as (x7 & E7 & H7); auto; [reflexivity|].
  unfold convert_ordered. rewrite E7. rewrite H6 in H7.
  exists x7. split; [|exact H7]. unfold L'. reassoc.
Qed.

Lemma bold_rewritten_witness :
  exists out,
    markdownToAsciidoc (lines ["Intro"; "Some **Bold text** and _italic text_"; "More"])
                       no_options =
      lines ["Intro"; "Some *Bold text* and _italic text_"] ++ out /\
    hd_error out = Some nl.
Proof.
  destruct (bold_rewritten no_options (str "Intro" ++ [nl] ++ str "Some ") (str "Bold text")
              (str " and _italic text_") (nl :: str "More")) as (out & E & H);
    try reflexivity.
  exists out. split; [exact E | exact H].
Defined.

(** ** Links *)

Lemma exec_link b t u z :
  forallb dot t = true -> free (chr "]") t = true ->
  forallb dot u = true -> free (chr ")") u = true ->
  exec re_link b (str "[" ++ t ++ str "](" ++ u ++ str ")" ++ z) =
    Some (State (rev (str ")") ++ rev u ++ rev (str "](") ++ rev t ++ rev (str "[") ++ b) z
                [t; u]).
Proof.
  intros Hdt Hft Hdu Hfu.
  unfold exec, re_link, cat, Char, lazyStar.
  change (str "[") with [91%N]. change (str "](") with [93%N; 40%N].
  change (str ")") with [41%N].
  cbn [matcher bef rest caps app]. change (chr "[" 91%N) with true. cbv iota.
  apply lazy_first; auto.
  { intros m1 c m2 E. rewrite (free_split (chr "]") t m1 m2 c Hft E). reflexivity. }
  cbn [app]. change (chr "]" 93%N) with true. change (chr "(" 40%N) with true. cbv iota.
  cbn [bef rest caps].
  apply lazy_first; auto.
  { intros m1 c m2 E. rewrite (free_split (chr ")") u m1 m2 c Hfu E). reflexivity. }
  cbn [app]. change (chr ")" 41%N) with true. cbv iota.
  cbn [bef rest caps].
  rewrite (capture_text t (91%N :: b)) by reflexivity.
  rewrite (capture_text u (40%N :: 93%N :: rev t ++ 91%N :: b)) by reflexivity.
  cbn [rev app]. rewrite <- ?app_assoc. reflexivity.
Qed.

(** A link [[text](url)] on one line becomes [link:url[text]], when its
    text holds no []], its address no [)], neither of them nor the rest of
    the line holds [*], backquote or [[], and what stands before is calm. *)
Theorem link_rewritten options pre t u q post :
  calm [] pre = true ->
  forallb dot t = true -> free inline_trigger t = true -> free (chr "]") t = true ->
  forallb dot u = true -> free inline_trigger u = true -> free (chr ")") u = true ->
  forallb dot q = true -> free inline_trigger q = true ->
  eol post = true ->
  exists out,
    markdownToAsciidoc (pre ++ str "[" ++ t ++ str "](" ++ u ++ str ")" ++ q ++ post) options =
      pre ++ str "link:" ++ u ++ str "[" ++ t ++ str "]" ++ q ++ out /\
    hd_error out = hd_error post.
Proof.
  intros Hpre Hdt Hft Hbt Hdu Hfu Hbu Hdq Hfq Hpost.
  destruct (free_inline t Hft) as (Ht1 & Ht2 & Ht3).
  destruct (free_inline u Hfu) as (Hu1 & Hu2 & Hu3).
  destruct (free_inline q Hfq) as (Hq1 & Hq2 & Hq3).
  unfold markdownToAsciidoc.
  set (m := str "[" ++ t ++ str "](" ++ u ++ str ")").
  set (m' := str "link:" ++ u ++ str "[" ++ t ++ str "]").
  assert (HdL : forallb dot (m ++ q) = true) by (unfold m; solve_dot).
  assert (HdL' : forallb dot (m' ++ q) = true) by (unfold m'; solve_dot).
  replace (pre ++ str "[" ++ t ++ str "](" ++ u ++ str ")" ++ q ++ post)
    with (pre ++ (m ++ q) ++ post) by (unfold m; reassoc).
  (* headings *)
  destruct (pass_anchored re_header (chr "#") (header_replacer options) pre (m ++ q) post
              guards_header trigger_hash Hpre) as (x1 & E1 & H1); auto; [reflexivity|].
  unfold convert_headers. rewrite E1. clear E1.
  pose proof (eol_hd _ _ H1 Hpost) as K1.
  (* bold *)
  destruct (pass_free re_bold (chr "*") (by_pattern (str "*$1*")) pre (m ++ q) x1
              guards_bold trigger_star Hpre) as (x2 & E2 & H2); auto;
    [unfold m; solve_free|].
  unfold convert_bold. rewrite E2. clear E2. rewrite H1 in H2.
  pose proof (eol_hd _ _ H2 Hpost) as K2.
  rewrite convert_italic_id.
  (* code *)
  destruct (pass_free re_code_lang (chr "`") code_lang_replacer pre (m ++ q) x2
              guards_code_lang trigger_tick Hpre) as (x3 & E3 & H3); auto;
    [unfold m; solve_free|].
  unfold convert_code_lang. rewrite E3. clear E3. rewrite H2 in H3.
  pose proof (eol_hd _ _ H3 Hpost) as K3.
  destruct (pass_free re_code (chr "`")
              (by_pattern (str "----" ++ [nl] ++ str "$1----" ++ [nl])) pre (m ++ q) x3
              guards_code trigger_tick Hpre) as (x4 & E4 & H4); auto;
    [unfold m; solve_free|].
  unfold convert_code. rewrite E4. clear E4. rewrite H3 in H4.
  pose proof (eol_hd _ _ H4 Hpost) as K4.
  rewrite convert_inline_code_id.
  (* block quotes *)
  destruct (pass_anchored re_quote (chr ">")
              (by_pattern (str "[quote]" ++ [nl] ++ str "____" ++ [nl] ++ str "$1" ++ [nl] ++
                           str "____" ++ [nl])) pre (m ++ q) x4
              guards_quote trigger_gt Hpre) as (x5 & E5 & H5); auto; [reflexivity|].
  unfold convert_quotes. rewrite E5. clear E5. rewrite H4 in H5.
  pose proof (eol_hd _ _ H5 Hpost) as K5.
  (* links *)
  replace (pre ++ (m ++ q) ++ x5) with (pre ++ m ++ q ++ x5) by reassoc.
  destruct (hit_step re_link false (chr "[") (by_pattern (str "link:$2[$1]")) pre m
              (rev (str ")") ++ rev u ++ rev (str "](") ++ rev t ++ rev (str "[") ++
               rev pre ++ [])
              [t; u] m' q x5 guards_link trigger_bracket Hpre)
    as (x6 & E6 & H6); auto.
  { unfold m. rewrite !rev_app_distr, <- !app_assoc. reflexivity. }
  { unfold m. rewrite <- !app_assoc. apply exec_link; auto. }
  { apply (quiet_free re_link false (chr "[") guards_link). exact Hq3. }
  unfold convert_links. rewrite E6. clear E6. rewrite H5 in H6.
  pose proof (eol_hd _ _ H6 Hpost) as K6.
  (* ordered lists *)
  replace (pre ++ m' ++ q ++ x6) with (pre ++ (m' ++ q) ++ x6) by reassoc.
  destruct (pass_anchored re_ordered cls_d (by_pattern (str ". $1")) pre (m' ++ q) x6
              guards_ordered trigger_digit Hpre) as (x7 & E7 & H7); auto; [reflexivity|].
  unfold convert_ordered. rewrite E7. rewrite H6 in H7.
  exists x7. split; [|exact H7]. unfold m'. reassoc.
Qed.

Lemma link_rewritten_witness :
  exists out,
    markdownToAsciidoc (lines ["See [Link text](https://example.com) now"; "More"])
                       no_options =
      str "See link:https://example.com[Link text] now" ++ out /\
    hd_error out = Some nl.
Proof.
  destruct (link_rewritten no_options (str "See ") (str "Link text") (str "https://example.com")
              (str " now") (nl :: str "More")) as (out & E & H);
    try reflexivity.
  exists out. split; [exact E | exact H].
Defined.

(** ** Ordered list items *)

Lemma class_free (p : char -> bool) s : forall l,
  (forall c, [c] = str s -> p c = false) ->
  forallb p l = true -> free (chr s) l = true.
Proof.
  intros l Hs. induction l as [|c l IH]; simpl; intros H; [reflexivity|].
  apply andb_true_iff in H as [Hc Hl]. rewrite IH by exact Hl.
  destruct (chr s c) eqn:E; [|reflexivity].
  apply chr_true in E. apply Hs in E. congruence.
Qed.

Lemma digit_dot : forall l, forallb cls_d l = true -> forallb dot l = true.
Proof.
  induction l as [|c l IH]; simpl; intros H; [reflexivity|].
  apply andb_true_iff in H as [Hc Hl]. rewrite IH by exact Hl.
  rewrite andb_true_r. unfold dot.
  destruct (isLineTerminator c) eqn:E; [|reflexivity].
  unfold cls_d in Hc. unfold isLineTerminator in E.
  rewrite !orb_true_iff, !andb_true_iff, !N.leb_le, !N.eqb_eq in *. lia.
Qed.

Lemma exec_ordered b ds ws text post :
  bol b = true ->
  ds <> [] -> forallb cls_d ds = true ->
  ws <> [] -> forallb cls_s ws = true ->
  starts_with_text text -> forallb dot text = true ->
  eol post = true ->
  exec re_ordered b (ds ++ str "." ++ ws ++ text ++ post) =
    Some (State (rev text ++ rev ws ++ rev (str ".") ++ rev ds ++ b) post [text]).
Proof.
  intros Hb Hds Hd Hws Hs Htx Hdot Hpost.
  unfold exec, re_ordered, cat, Char, oneOrMore. cbn [matcher bef rest caps].
  rewrite Hb.
  apply greedy_run; auto.
  { destruct ds; [congruence | simpl; lia]. }
  { reflexivity. }
  cbn [matcher bef rest caps app str]. change (chr "." (N_of_ascii ".")) with true. cbv iota.
  apply greedy_run; auto.
  { destruct ws; [congruence | simpl; lia]. }
  { destruct text as [|c text]; [contradiction | exact Htx]. }
  apply greedy_run; auto.
  { destruct text; [contradiction | simpl; lia]. }
  { destruct post as [|c post]; [exact I|]. simpl in Hpost. unfold dot. rewrite Hpost.
    reflexivity. }
  rewrite Hpost.
  rewrite (capture_text text (rev ws ++ N_of_ascii "." :: rev ds ++ b)) by reflexivity.
  cbn [rev app]. rewrite <- ?app_assoc. reflexivity.
Qed.

Lemma class_off (p : char -> bool) s (l : jsstring) :
  (forall c, [c] = str s -> p c = false) ->
  l <> [] -> forallb p l = true -> starts_off (chr s) l.
Proof.
  intros Hs Hl H. destruct l as [|c l]; [congruence|]. simpl in *.
  apply andb_true_iff in H as [Hc _].
  destruct (chr s c) eqn:E; [|reflexivity].
  apply chr_true in E. apply Hs in E. congruence.
Qed.

Ltac not_in_class := let c := fresh in let H := fresh in intros c H; injection H as ->; reflexivity.

(** An ordered list item -- digits, a full stop, white space and text, on
    a line of its own after calm text -- becomes a full stop, one space and
    the text, when the text holds no [*], backquote or [[]. *)
Theorem ordered_item_rewritten options pre ds ws text post :
  calm [] pre = true -> bol (rev pre) = true ->
  ds <> [] -> forallb cls_d ds = true ->
  ws <> [] -> forallb cls_s ws = true -> forallb dot ws = true ->
  starts_with_text text -> forallb dot text = true -> free inline_trigger text = true ->
  eol post = true ->
  exists out,
    markdownToAsciidoc (pre ++ ds ++ str "." ++ ws ++ text ++ post) options =
      pre ++ str ". " ++ text ++ out /\
    hd_error out = hd_error post.
Proof.
  intros Hpre Hb Hds Hd Hws Hs Hdw Htx Hdot Hft Hpost.
  destruct (free_inline text Hft) as (Ht1 & Ht2 & Ht3).
  pose proof (digit_dot ds Hd) as Hdd.
  unfold markdownToAsciidoc.
  set (L := ds ++ str "." ++ ws ++ text).
  assert (HdL : forallb dot L = true) by (unfold L; solve_dot).
  assert (HL1 : free (chr "*") L = true).
  { unfold L. rewrite !free_app. split_all; auto.
    - apply (class_free cls_d); auto. not_in_class.
    - apply (class_free cls_s); auto. not_in_class. }
  assert (HL2 : free (chr "`") L = true).
  { unfold L. rewrite !free_app. split_all; auto.
    - apply (class_free cls_d); auto. not_in_class.
    - apply (class_free cls_s); auto. not_in_class. }
  assert (HL3 : free (chr "[") L = true).
  { unfold L. rewrite !free_app. split_all; auto.
    - apply (class_free cls_d); auto. not_in_class.
    - apply (class_free cls_s); auto. not_in_class. }
  assert (HL4 : starts_off (chr "#") L).
  { unfold L. destruct ds as [|d ds]; [congruence|].
    apply (class_off cls_d "#" [d]); [not_in_class | discriminate |].
    simpl in Hd. apply andb_true_iff in Hd as [Hd _]. simpl. rewrite Hd. reflexivity. }
  assert (HL5 : starts_off (chr ">") L).
  { unfold L. destruct ds as [|d ds]; [congruence|].
    apply (class_off cls_d ">" [d]); [not_in_class | discriminate |].
    simpl in Hd. apply andb_true_iff in Hd as [Hd _]. simpl. rewrite Hd. reflexivity. }
  replace (pre ++ ds ++ str "." ++ ws ++ text ++ post) with (pre ++ L ++ post)
    by (unfold L; reassoc).
  (* headings *)
  destruct (pass_anchored re_header (chr "#") (header_replacer options) pre L post
              guards_header trigger_hash Hpre) as (x1 & E1 & H1); auto.
  unfold convert_headers. rewrite E1. clear E1.
  pose proof (eol_hd _ _ H1 Hpost) as K1.
  (* bold *)
  destruct (pass_free re_bold (chr "*") (by_pattern (str "*$1*")) pre L x1
              guards_bold trigger_star Hpre) as (x2 & E2 & H2); auto.
  unfold convert_bold. rewrite E2. clear E2. rewrite H1 in H2.
  pose proof (eol_hd _ _ H2 Hpost) as K2.
  rewrite convert_italic_id.
  (* code *)
  destruct (pass_free re_code_lang (chr "`") code_lang_replacer pre L x2
              guards_code_lang trigger_tick Hpre) as (x3 & E3 & H3); auto.
  unfold convert_code_lang. rewrite E3. clear E3. rewrite H2 in H3.
  pose proof (eol_hd _ _ H3 Hpost) as K3.
  destruct (pass_free re_code (chr "`")
              (by_pattern (str "----" ++ [nl] ++ str "$1----" ++ [nl])) pre L x3
              guards_code trigger_tick Hpre) as (x4 & E4 & H4); auto.
  unfold convert_code. rewrite E4. clear E4. rewrite H3 in H4.
  pose proof (eol_hd _ _ H4 Hpost) as K4.
  rewrite convert_inline_code_id.
  (* block quotes *)
  destruct (pass_anchored re_quote (chr ">")
              (by_pattern (str "[quote]" ++ [nl] ++ str "____" ++ [nl] ++ str "$1" ++ [nl] ++
                           str "____" ++ [nl])) pre L x4
              guards_quote trigger_gt Hpre) as (x5 & E5 & H5); auto.
  unfold convert_quotes. rewrite E5. clear E5. rewrite H4 in H5.
  pose proof (eol_hd _ _ H5 Hpost) as K5.
  (* links *)
  destruct (pass_free re_link (chr "[") (by_pattern (str "link:$2[$1]")) pre L x5
              guards_link trigger_bracket Hpre) as (x6 & E6 & H6); auto.
  unfold convert_links. rewrite E6. clear E6. rewrite H5 in H6.
  pose proof (eol_hd _ _ H6 Hpost) as K6.
  (* ordered lists *)
  replace (pre ++ L ++ x6) with (pre ++ L ++ [] ++ x6) by reflexivity.
  destruct (hit_step re_ordered true cls_d (by_pattern (str ". $1")) pre L
              (rev text ++ rev ws ++ rev (str ".") ++ rev ds ++ rev pre ++ [])
              [text] (str ". " ++ text ++ []) [] x6 guards_ordered trigger_digit Hpre)
    as (x7 & E7 & H7); auto.
  { unfold L. destruct ds; [congruence | discriminate]. }
  { unfold L. rewrite !rev_app_distr, <- !app_assoc. reflexivity. }
  { unfold L. cbn [app]. rewrite <- !app_assoc. apply exec_ordered; auto.
    rewrite app_nil_r. exact Hb. }
  unfold convert_ordered. rewrite E7. rewrite H6 in H7.
  exists x7. split; [|exact H7]. rewrite app_nil_r. cbn [app]. reassoc.
Qed.

Lemma ordered_item_rewritten_witness :
  exists out,
    markdownToAsciidoc (lines ["List:"; ""; "12. Ordered item 1"; "next"]) no_options =
      lines ["List:"; ""; ". Ordered item 1"] ++ out /\
    hd_error out = Some nl.
Proof.
  destruct (ordered_item_rewritten no_options (str "List:" ++ [nl; nl]) (str "12") (str " ")
              (str "Ordered item 1") (nl :: str "next")) as (out & E & H);
    try reflexivity; try discriminate.
  exists out. split; [exact E | exact H].
Defined.

(** ** Block quotes *)

Lemma exec_quote b ws text post :
  bol b = true ->
  ws <> [] -> forallb cls_s ws = true ->
  starts_with_text text -> forallb dot text = true ->
  eol post = true ->
  exec re_quote b (str ">" ++ ws ++ text ++ post) =
    Some (State (rev text ++ rev ws ++ rev (str ">") ++ b) post [text]).
Proof.
  intros Hb Hws Hs Htx Hdot Hpost.
  unfold exec, re_quote, cat, Char, oneOrMore. cbn [matcher bef rest caps app str].
  rewrite Hb. change (chr ">" (N_of_ascii ">")) with true. cbv iota.
  apply greedy_run; auto.
  { destruct ws; [congruence | simpl; lia]. }
  { destruct text as [|c text]; [contradiction | exact Htx]. }
  apply greedy_run; auto.
  { destruct text; [contradiction | simpl; lia]. }
  { destruct post as [|c post]; [exact I|]. simpl in Hpost. unfold dot. rewrite Hpost.
    reflexivity. }
  rewrite Hpost.
  rewrite (capture_text text (rev ws ++ N_of_ascii ">" :: b)) by reflexivity.
  cbn [rev app]. rewrite <- ?app_assoc. reflexivity.
Qed.

(** No link starts at a [[] whose []] ends its line. *)
Lemma no_link_line b w z :
  forallb dot w = true -> free (chr "]") w = true ->
  exec re_link b (91%N :: w ++ 93%N :: nl :: z) = None.
Proof.
  intros Hd Hf. destruct (exec re_link b _) as [y|] eqn:E; [exfalso | reflexivity].
  apply exec_sound in E as (m & Hs & _ & HS & _).
  simpl in HS. sem_split. subst.
  repeat match goal with H : chr _ _ = true |- _ => apply chr_true in H; injection H as -> end.
  simpl in Hs. injection Hs as Hs.
  repeat rewrite <- app_assoc in Hs. simpl in Hs.
  match type of Hs with
  | _ = ?ma ++ _ => assert (Hm : forallb dot ma = true) by assumption
  end.
  apply app_eq_app in Hs as [l [[Hl Hr] | [Hl Hr]]].
  - destruct l as [|c l]; simpl in Hr.
    + discriminate.
    + injection Hr as <- _. rewrite Hl in Hf. unfold free in Hf. rewrite forallb_app in Hf.
      apply andb_true_iff in Hf as [_ Hf]. discriminate.
  - destruct l as [|c l]; simpl in Hr.
    + discriminate.
    + injection Hr as <- Hr. unfold nl in Hr.
      destruct l as [|c' l]; simpl in Hr; [discriminate|].
      injection Hr as <- _. rewrite Hl in Hm. rewrite forallb_app in Hm.
      apply andb_true_iff in Hm as [_ Hm]. discriminate.
Qed.

Lemma link_over_label f pre w rest x :
  calm [] pre = true ->
  forallb dot w = true -> free (chr "]") w = true -> free (chr "[") w = true ->
  free (chr "[") rest = true -> eol x = true ->
  exists x',
    replace_all re_link f (pre ++ (str "[" ++ w ++ str "]" ++ [nl] ++ rest) ++ x) =
      pre ++ (str "[" ++ w ++ str "]" ++ [nl] ++ rest) ++ x' /\
    hd_error x' = hd_error x.
Proof.
  intros Hpre Hd Hf Hw Hr Hx. unfold replace_all.
  rewrite scan_quiet by (apply (calm_pre_quiet _ _ _ _ guards_link trigger_bracket Hpre)).
  change (str "[" ++ w ++ str "]" ++ [nl] ++ rest) with (91%N :: w ++ 93%N :: nl :: rest).
  cbn [app]. rewrite <- app_assoc. cbn [app].
  rewrite scan_miss by (apply no_link_line; auto).
  change (w ++ 93%N :: nl :: rest ++ x) with (w ++ (93%N :: nl :: rest) ++ x).
  rewrite app_assoc.
  rewrite scan_quiet.
  - match goal with |- context [scan ?r ?f' ?g 0 ?b x] =>
      destruct (scan_tail r false (chr "[") guards_link f' g b x) as (x' & E & Hh); auto
    end.
    { intros c Hc. apply trigger_bracket. exact Hc. }
    exists x'. rewrite E. split; [|exact Hh].
    rewrite <- !app_assoc. reflexivity.
  - apply (quiet_free re_link false (chr "[") guards_link).
    unfold free in *. rewrite forallb_app. cbn [forallb]. split_all; auto.
Qed.

Lemma quiet_next_line r t b l rest :
  guards r true t -> t nl = false ->
  starts_off t l -> forallb dot l = true ->
  quiet r (nl :: rev l ++ b) rest = true ->
  quiet r b (l ++ nl :: rest) = true.
Proof.
  intros G Hn Hl Hd Hr. rewrite quiet_app. apply andb_true_iff. split.
  - destruct l as [|c l]; [reflexivity|]. apply quiet_line with (t := t); auto.
  - cbn [quiet]. rewrite Hr, andb_true_r.
    destruct (necessary r (rev l ++ b) [nl]) eqn:E; [|reflexivity].
    apply G in E as [_ E]. congruence.
Qed.

(** The block the quote substitution writes. *)
Definition block_quote (text : jsstring) : jsstring :=
  str "[quote]" ++ [nl] ++ str "____" ++ [nl] ++ text ++ [nl] ++ str "____" ++ [nl].

(** A quoted line -- [>], white space and text, on a line of its own after
    calm text -- becomes a [[quote]] line and the text between two lines
    [____], when the text holds no [*], backquote or [[] and does not begin
    with a digit. *)
Theorem quote_rewritten options pre ws text post :
  calm [] pre = true -> bol (rev pre) = true ->
  ws <> [] -> forallb cls_s ws = true -> forallb dot ws = true ->
  starts_with_text text -> starts_off cls_d text ->
  forallb dot text = true -> free inline_trigger text = true ->
  eol post = true ->
  exists out,
    markdownToAsciidoc (pre ++ str ">" ++ ws ++ text ++ post) options =
      pre ++ block_quote text ++ out /\
    hd_error out = hd_error post.
Proof.
  intros Hpre Hb Hws Hs Hdw Htx Hnd Hdot Hft Hpost.
  destruct (free_inline text Hft) as (Ht1 & Ht2 & Ht3).
  unfold markdownToAsciidoc.
  set (L := str ">" ++ ws ++ text).
  assert (HdL : forallb dot L = true) by (unfold L; solve_dot).
  assert (HL1 : free (chr "*") L = true).
  { unfold L. rewrite !free_app. split_all; auto.
    apply (class_free cls_s); auto. not_in_class. }
  assert (HL2 : free (chr "`") L = true).
  { unfold L. rewrite !free_app. split_all; auto.
    apply (class_free cls_s); auto. not_in_class. }
  replace (pre ++ str ">" ++ ws ++ text ++ post) with (pre ++ L ++ post)
    by (unfold L; reassoc).
  (* headings *)
  destruct (pass_anchored re_header (chr "#") (header_replacer options) pre L post
              guards_header trigger_hash Hpre) as (x1 & E1 & H1); auto; [reflexivity|].
  unfold convert_headers. rewrite E1. clear E1.
  pose proof (eol_hd _ _ H1 Hpost) as K1.
  (* bold *)
  destruct (pass_free re_bold (chr "*") (by_pattern (str "*$1*")) pre L x1
              guards_bold trigger_star Hpre) as (x2 & E2 & H2); auto.
  unfold convert_bold. rewrite E2. clear E2. rewrite H1 in H2.
  pose proof (eol_hd _ _ H2 Hpost) as K2.
  rewrite convert_italic_id.
  (* code *)
  destruct (pass_free re_code_lang (chr "`") code_lang_replacer pre L x2
              guards_code_lang trigger_tick Hpre) as (x3 & E3 & H3); auto.
  unfold convert_code_lang. rewrite E3. clear E3. rewrite H2 in H3.
  pose proof (eol_hd _ _ H3 Hpost) as K3.
  destruct (pass_free re_code (chr "`")
              (by_pattern (str "----" ++ [nl] ++ str "$1----" ++ [nl])) pre L x3
              guards_code trigger_tick Hpre) as (x4 & E4 & H4); auto.
  unfold convert_code. rewrite E4. clear E4. rewrite H3 in H4.
  pose proof (eol_hd _ _ H4 Hpost) as K4.
  rewrite convert_inline_code_id.
  (* block quotes *)
  replace (pre ++ L ++ x4) with (pre ++ L ++ [] ++ x4) by reflexivity.
  destruct (hit_step re_quote true (chr ">")
              (by_pattern (str "[quote]" ++ [nl] ++ str "____" ++ [nl] ++ str "$1" ++ [nl] ++
                           str "____" ++ [nl])) pre L
              (rev text ++ rev ws ++ rev (str ">") ++ rev pre ++ [])
              [text] (block_quote text) [] x4 guards_quote trigger_gt Hpre)
    as (x5 & E5 & H5); auto.
  { unfold L. rewrite !rev_app_distr, <- !app_assoc. reflexivity. }
  { unfold L. cbn [app]. rewrite <- !app_assoc. apply exec_quote; auto.
    rewrite app_nil_r. exact Hb. }
  unfold convert_quotes. rewrite E5. clear E5. rewrite H4 in H5.
  pose proof (eol_hd _ _ H5 Hpost) as K5.
  cbn [app].
  (* links *)
  destruct (link_over_label (by_pattern (str "link:$2[$1]")) pre (str "quote")
              (str "____" ++ [nl] ++ text ++ [nl] ++ str "____" ++ [nl]) x5 Hpre)
    as (x6 & E6 & H6); auto.
  { solve_free. }
  unfold convert_links.
  replace (pre ++ block_quote text ++ x5)
    with (pre ++ (str "[" ++ str "quote" ++ str "]" ++ [nl] ++
                  str "____" ++ [nl] ++ text ++ [nl] ++ str "____" ++ [nl]) ++ x5)
    by reflexivity.
  rewrite E6. clear E6. rewrite H5 in H6.
  pose proof (eol_hd _ _ H6 Hpost) as K6.
  (* ordered lists *)
  change (str "[" ++ str "quote" ++ str "]" ++ [nl] ++
          str "____" ++ [nl] ++ text ++ [nl] ++ str "____" ++ [nl])
    with (block_quote text).
  destruct (step_quiet re_ordered true cls_d (by_pattern (str ". $1"))
              (pre ++ block_quote text) x6 guards_ordered) as (x7 & E7 & H7); auto.
  { intros c Hc. apply trigger_digit. exact Hc. }
  { rewrite quiet_app. apply andb_true_iff. split.
    - apply (calm_pre_quiet _ _ _ _ guards_ordered trigger_digit Hpre).
    - unfold block_quote.
      change (str "[quote]" ++ [nl] ++ str "____" ++ [nl] ++ text ++ [nl] ++ str "____" ++ [nl])
        with (str "[quote]" ++ nl :: str "____" ++ nl :: text ++ nl :: str "____" ++ nl :: []).
      repeat (apply (quiet_next_line re_ordered cls_d _ _ _ guards_ordered eq_refl);
              [first [exact Hnd | reflexivity] | first [assumption | reflexivity] |]).
      reflexivity. }
  unfold convert_ordered. rewrite <- app_assoc in E7. rewrite E7. rewrite H6 in H7.
  exists x7. split; [|exact H7]. reassoc.
Qed.

Lemma quote_rewritten_witness :
  exists out,
    markdownToAsciidoc (lines ["Intro"; ""; "> This is a blockquote"; ""; "More"]) no_options =
      lines ["Intro"; ""; "[quote]"; "____"; "This is a blockquote"; "____"; ""] ++ out /\
    hd_error out = Some nl.
Proof.
  destruct (quote_rewritten no_options (str "Intro" ++ [nl; nl]) (str " ")
              (str "This is a blockquote") (nl :: nl :: str "More")) as (out & E & H);
    try reflexivity; try discriminate.
  exists out. split; [exact E | exact H].
Defined.

(** ** postProcessAsciidoc: the title *)

Lemma add_title_starts s : startsWith (add_title s) "=" = true.
Proof. unfold add_title. destruct (startsWith s "=") eqn:E; [exact E | reflexivity]. Qed.

(** Without the [g] flag, a text in which the pattern matches nowhere is
    returned as it is. *)
Lemma scan_first_none r f : forall s b, search r b s = None -> scan r f false 0 b s = s.
Proof.
  induction s as [|c s IH]; intros b H; simpl in H.
  - destruct (exec r b []) eqn:E; [discriminate|]. apply scan_end. exact E.
  - destruct (exec r b (c :: s)) eqn:E; [discriminate|].
    rewrite scan_miss by exact E. rewrite IH by exact H. reflexivity.
Qed.

(** The first match splits the text. *)
Lemma search_sound r : forall s b before y,
  search r b s = Some (before, y) ->
  exists p, before = rev b ++ p /\ s = p ++ matched (rev before) y ++ rest y /\
            exec r (rev before) (matched (rev before) y ++ rest y) = Some y.
Proof.
  induction s as [|c s IH]; intros b before y H; simpl in H.
  - destruct (exec r b []) as [y'|] eqn:E; [|discriminate].
    injection H as <- <-. exists []. rewrite app_nil_r, rev_involutive.
    pose proof (exec_sound _ _ _ _ E) as (m & Hs & _ & _ & Hm).
    rewrite Hm, <- Hs. auto.
  - destruct (exec r b (c :: s)) as [y'|] eqn:E.
    + injection H as <- <-. exists []. rewrite app_nil_r, rev_involutive.
      pose proof (exec_sound _ _ _ _ E) as (m & Hs & _ & _ & Hm).
      rewrite Hm, <- Hs. auto.
    + apply IH in H as (p & Hb' & Hs & He).
      assert (Eb : rev (c :: b) ++ p = rev b ++ c :: p)
        by (simpl; rewrite <- app_assoc; reflexivity).
      rewrite Eb in Hb'. subst before. exists (c :: p). split; [reflexivity|]. split.
      * simpl. rewrite <- Hs. reflexivity.
      * exact He.
Qed.

(** A heading line is not empty. *)
Lemma first_heading_text b s y :
  exec re_first_heading b s = Some y -> matched b y <> [].
Proof.
  intros E. apply exec_sound in E as (m & _ & _ & HS & ->).
  simpl in HS. sem_split. subst.
  match goal with H : 1 <= length ?l |- _ => destruct l; [simpl in H; lia | discriminate] end.
Qed.

(** A replacement pattern without [$] stands for itself. *)
Lemma getSubstitution_plain m before after cs : forall t,
  free (chr "$") t = true -> getSubstitution m before after cs t = t.
Proof.
  induction t as [|c t IH]; intros H; [reflexivity|].
  unfold free in H. simpl in H. apply andb_true_iff in H as [Hc Ht].
  simpl. rewrite Hc. f_equal. apply IH. exact Ht.
Qed.

(** What [insert_attributes] does at the first heading line [h]: the line
    stays, and the attribute block, read as a replacement pattern, follows
    it. *)
Lemma insert_attributes_at options d before y :
  truthy (includeAttributes options) = true ->
  search re_first_heading [] d = Some (before, y) ->
  let h := matched (rev before) y in
  d = before ++ h ++ rest y /\ h <> [] /\
  insert_attributes options d =
    before ++ h ++ [nl] ++
    getSubstitution h before (rest y) [h] (attribute_block options) ++ rest y.
Proof.
  intros Hi Hs h.
  destruct (search_sound _ _ _ _ _ Hs) as (p & Hp & Hd & He). simpl in Hp. subst p.
  split; [exact Hd|]. split; [exact (first_heading_text _ _ _ He)|].
  unfold insert_attributes, replace_first. rewrite Hi.
  destruct (scan_first_found _ (by_pattern (str "$1" ++ [nl] ++ attribute_block options))
              _ _ _ _ Hs) as (p & Hp & ->).
  simpl in Hp. subst p. f_equal.
  rewrite (first_heading_capture _ _ _ He). fold h.
  unfold by_pattern.
  change (str "$1" ++ [nl] ++ attribute_block options)
    with (36%N :: 49%N :: nl :: attribute_block options).
  change (getSubstitution h before (rest y) [h] (36%N :: 49%N :: nl :: attribute_block options))
    with (h ++ nl :: getSubstitution h before (rest y) [h] (attribute_block options)).
  rewrite <- !app_assoc. reflexivity.
Qed.

Lemma joined_head d d' :
  Forall2 joined d d' -> startsWith d "=" = true -> startsWith d' "=" = true.
Proof.
  intros H. destruct H as [|a a' d d' Ha _]; [auto|]. simpl.
  destruct Ha as [-> | [-> ->]]; [auto|].
  intros E. apply chr_true in E. discriminate.
Qed.

(** Whatever the text and the options, the result of
    [postProcessAsciidoc] begins with [=]. *)
Theorem post_process_begins_with_equals s options :
  startsWith (postProcessAsciidoc s options) "=" = true.
Proof.
  unfold postProcessAsciidoc. rewrite fix_tables_id.
  apply (joined_head _ _ (join_lines_joined options _)).
  pose proof (add_title_starts s) as H0. revert H0. generalize (add_title s). intros d H0.
  destruct (truthy (includeAttributes options)) eqn:Hi;
    [|unfold insert_attributes; rewrite Hi; exact H0].
  destruct (search re_first_heading [] d) as [[before y]|] eqn:Hs.
  - destruct (insert_attributes_at options d before y Hi Hs) as (Hd & Hh & ->).
    rewrite Hd in H0. revert H0 Hh. generalize (matched (rev before) y). intros h H0 Hh.
    destruct before; [|exact H0]. destruct h; [congruence | exact H0].
  - unfold insert_attributes, replace_first. rewrite Hi, scan_first_none by exact Hs.
    exact H0.
Qed.

Lemma search_here r b s y : exec r b s = Some y -> search r b s = Some (rev b, y).
Proof. intros E. destruct s; simpl; rewrite E; reflexivity. Qed.

(** A text that does not begin with [=] gets the default title: the result
    begins with [= Document Title], whatever the options; when no
    attributes are requested and line breaks are preserved, the result is
    the title line, an empty line and the text. *)
Theorem default_title_added s options :
  startsWith s "=" = false ->
  (exists tail, postProcessAsciidoc s options = str "= Document Title" ++ tail) /\
  (truthy (includeAttributes options) = false ->
   truthy (preserveLineBreaks options) = true ->
   postProcessAsciidoc s options = lines ["= Document Title"; ""; ""] ++ s).
Proof.
  intros Hs. unfold postProcessAsciidoc, add_title. rewrite Hs. cbn [negb].
  rewrite fix_tables_id. split.
  - assert (H1 : exists tail1, insert_attributes options (default_title ++ s) =
                               str "= Document Title" ++ tail1).
    { destruct (truthy (includeAttributes options)) eqn:Hi.
      - pose proof (search_here _ _ _ _ (exec_default_title s)) as Hf.
        destruct (insert_attributes_at options _ _ _ Hi Hf) as (_ & _ & ->).
        cbn [rev app]. eexists. reflexivity.
      - unfold insert_attributes. rewrite Hi. eexists. reflexivity. }
    destruct H1 as (tail1 & ->).
    pose proof (join_lines_joined options (str "= Document Title" ++ tail1)) as HJ.
    apply (joined_split [] (str "= Document Title") tail1) in HJ
      as (x' & y' & -> & Hl & _); [|reflexivity].
    destruct x'; [|discriminate]. eexists. reflexivity.
  - intros Hi Hp. unfold insert_attributes, join_lines. rewrite Hi, Hp. reflexivity.
Qed.

Lemma default_title_added_witness :
  postProcessAsciidoc (lines ["|==="; "|Cell 1"; "|Cell 2"; "|==="]) preserving =
    lines ["= Document Title"; ""; "|==="; "|Cell 1"; "|Cell 2"; "|==="].
Proof.
  exact (proj2 (default_title_added (lines ["|==="; "|Cell 1"; "|Cell 2"; "|==="]) preserving
                  eq_refl) eq_refl eq_refl).
Defined.

(** Unless attributes are requested, [postProcessAsciidoc] changes nothing
    but newlines, which it may turn into spaces: the result has the length
    of the titled text, and with [preserveLineBreaks] it is the titled text
    itself. *)
Theorem post_process_only_joins s options :
  truthy (includeAttributes options) = false ->
  Forall2 joined (add_title s) (postProcessAsciidoc s options) /\
  length (postProcessAsciidoc s options) = length (add_title s) /\
  (truthy (preserveLineBreaks options) = true ->
   postProcessAsciidoc s options = add_title s).
Proof.
  intros Hi. unfold postProcessAsciidoc, insert_attributes. rewrite Hi, fix_tables_id.
  pose proof (join_lines_joined options (add_title s)) as HJ. split; [exact HJ|]. split.
  - symmetry. eapply Forall2_length. exact HJ.
  - intros Hp. unfold join_lines. rewrite Hp. reflexivity.
Qed.

Lemma post_process_only_joins_witness :
  length (postProcessAsciidoc (lines ["= Document Title"; ""; "Some content"; "More content"])
            no_options) =
    length (lines ["= Document Title"; ""; "Some content"; "More content"]).
Proof.
  exact (proj1 (proj2 (post_process_only_joins
                         (lines ["= Document Title"; ""; "Some content"; "More content"])
                         no_options eq_refl))).
Defined.

(** ** postProcessAsciidoc: the attributes *)

(** Somewhere in the text a [=] is followed by white space. *)
Fixpoint heading_mark (s : jsstring) : bool :=
  match s with
  | [] => false
  | c :: s' =>
      match s' with
      | d :: _ => chr "=" c && cls_s d
      | [] => false
      end || heading_mark s'
  end.

Lemma heading_mark_run : forall m1 c z,
  m1 <> [] -> forallb (chr "=") m1 = true -> cls_s c = true ->
  heading_mark (m1 ++ c :: z) = true.
Proof.
  induction m1 as [|e m1 IH]; intros c z Hne Hall Hc; [congruence|].
  simpl in Hall. apply andb_true_iff in Hall as [He Hall].
  destruct m1 as [|e' m1].
  - simpl. rewrite He, Hc. reflexivity.
  - change ((e :: e' :: m1) ++ c :: z) with (e :: ((e' :: m1) ++ c :: z)).
    cbn [heading_mark]. rewrite (IH c z) by (auto; discriminate).
    apply orb_true_r.
Qed.

Lemma first_heading_mark b s y :
  exec re_first_heading b s = Some y -> heading_mark s = true.
Proof.
  intros E. apply exec_sound in E as (m & -> & _ & HS & _).
  simpl in HS. sem_split. subst.
  match goal with
  | H1 : forallb (chr "=") ?m1 = true, L1 : 1 <= length ?m1,
    H2 : forallb cls_s ?m2 = true, L2 : 1 <= length ?m2 |- _ =>
      destruct m2 as [|c m2]; [simpl in L2; lia|];
      simpl in H2; apply andb_true_iff in H2 as [Hc _];
      cbn [app]; rewrite <- !app_assoc; cbn [app];
      apply heading_mark_run;
        [destruct m1; [simpl in L1; lia | discriminate] | exact H1 | exact Hc]
  end.
Qed.

Lemma heading_mark_tail c s : heading_mark (c :: s) = false -> heading_mark s = false.
Proof. cbn [heading_mark]. intros H. apply orb_false_iff in H. tauto. Qed.

Lemma no_heading_mark : forall s b, heading_mark s = false -> search re_first_heading b s = None.
Proof.
  induction s as [|c s IH]; intros b H.
  - simpl. destruct (exec re_first_heading b []) eqn:E; [|reflexivity].
    apply first_heading_mark in E. discriminate.
  - simpl. destruct (exec re_first_heading b (c :: s)) eqn:E.
    + apply first_heading_mark in E. congruence.
    + apply IH. apply (heading_mark_tail c). exact H.
Qed.

(** [options] with [includeAttributes] left out. *)
Definition without_attributes (options : DocxToAsciidocOptions) : DocxToAsciidocOptions :=
  Options (headingLevel options) None (attributes options) (preserveLineBreaks options)
          (codeBlockStyle options) (includeToc options).

(** The attributes are put after a line of one or more [=], white space and
    text. A text that begins with [=] but in which no [=] is followed by
    white space has no such line (and gets no default title): the
    attributes that were asked for are left out without notice. *)
Theorem attributes_need_heading s options :
  startsWith s "=" = true -> heading_mark s = false ->
  postProcessAsciidoc s options = postProcessAsciidoc s (without_attributes options).
Proof.
  intros Hs Hm. unfold postProcessAsciidoc, add_title. rewrite Hs. cbn [negb].
  replace (insert_attributes options s) with s; [reflexivity|].
  unfold insert_attributes, replace_first.
  destruct (truthy (includeAttributes options)); [|reflexivity].
  symmetry. apply scan_first_none. apply no_heading_mark. exact Hm.
Qed.

Lemma attributes_need_heading_witness :
  postProcessAsciidoc (lines ["=Title"; ""; "text"]) (with_author_email (Some true)) =
    lines ["=Title"; ""; "text"].
Proof.
  rewrite (attributes_need_heading (lines ["=Title"; ""; "text"]) (with_author_email (Some true))
             eq_refl eq_refl).
  reflexivity.
Defined.

(** An attribute entry without [$]. *)
Definition plain_entry (kv : jsstring * jsstring) : Prop :=
  free (chr "$") (fst kv) = true /\ free (chr "$") (snd kv) = true.

Lemma entries_plain entries : forall acc,
  free (chr "$") acc = true -> Forall plain_entry entries ->
  free (chr "$")
    (fold_left (fun acc kv => acc ++ str ":" ++ fst kv ++ str ": " ++ snd kv ++ [nl])
               entries acc) = true.
Proof.
  induction entries as [|kv entries IH]; intros acc Ha H; [exact Ha|].
  inversion H as [|? ? [Hk Hv] H']; subst. cbn [fold_left]. apply IH; [|exact H'].
  rewrite !free_app. split_all; first [assumption | reflexivity].
Qed.

Lemma attribute_block_plain options :
  Forall plain_entry (default [] (attributes options)) ->
  free (chr "$") (attribute_block options) = true.
Proof.
  intros H. unfold attribute_block. cbv zeta.
  destruct (truthy (includeToc options)); destruct (attributes options) as [entries|];
    cbn [default] in H; rewrite ?free_app; split_all;
    first [reflexivity | apply entries_plain; [reflexivity | exact H]].
Qed.

(** When attributes are requested, neither a key nor a value holds a [$],
    and the titled text has a first heading line [h], the text is kept and
    the attribute block is put on the lines after [h]: exactly so when line
    breaks are preserved, and otherwise up to the newlines that the line
    joining turns into spaces. *)
Theorem attribute_block_inserted s options before y :
  truthy (includeAttributes options) = true ->
  Forall plain_entry (default [] (attributes options)) ->
  search re_first_heading [] (add_title s) = Some (before, y) ->
  let h := matched (rev before) y in
  add_title s = before ++ h ++ rest y /\
  Forall2 joined (before ++ h ++ [nl] ++ attribute_block options ++ rest y)
                 (postProcessAsciidoc s options) /\
  (truthy (preserveLineBreaks options) = true ->
   postProcessAsciidoc s options = before ++ h ++ [nl] ++ attribute_block options ++ rest y).
Proof.
  intros Hi Hp Hs h.
  destruct (insert_attributes_at options _ _ _ Hi Hs) as (Hd & _ & E). fold h in Hd, E.
  rewrite getSubstitution_plain in E by (apply attribute_block_plain; exact Hp).
  split; [exact Hd|]. unfold postProcessAsciidoc. rewrite fix_tables_id, E. split.
  - apply join_lines_joined.
  - intros Hb. unfold join_lines. rewrite Hb. reflexivity.
Qed.

Lemma attribute_block_inserted_witness :
  postProcessAsciidoc (lines ["Intro"; "== Section"; "text"])
    (Options None (Some true) (Some [(str "revdate", str "2025-04-08")]) (Some true) None
             (Some true)) =
    lines ["= Document Title"; "Author Name <author@example.com>"; ":toc: left"; ":icons: font";
           ":source-highlighter: highlight.js"; ":revdate: 2025-04-08"; ":toc:";
           ":toclevels: 3"; ""; ""; "Intro"; "== Section"; "text"].
Proof.
  refine (proj2 (proj2 (attribute_block_inserted (lines ["Intro"; "== Section"; "text"])
                          (Options None (Some true) (Some [(str "revdate", str "2025-04-08")])
                                   (Some true) None (Some true))
                          [] (State (rev (str "= Document Title"))
                                    (nl :: nl :: lines ["Intro"; "== Section"; "text"])
                                    [str "= Document Title"])
                          eq_refl _ eq_refl)) eq_refl).
  repeat constructor.
Defined.

Lemma getSubstitution_app m before after cs : forall t t',
  free (chr "$") t = true ->
  getSubstitution m before after cs (t ++ t') = t ++ getSubstitution m before after cs t'.
Proof.
  induction t as [|c t IH]; intros t' H; [reflexivity|].
  unfold free in H. simpl in H. apply andb_true_iff in H as [Hc Ht].
  cbn [app getSubstitution]. rewrite Hc. cbn [negb]. f_equal. apply IH. exact Ht.
Qed.

(** The attribute block is handed to [replace] inside a replacement
    pattern, so a [$] in a key or a value is read as part of the pattern:
    where a value holds [$&], the result holds the heading line. *)
Theorem attribute_value_read_as_pattern s options before y k v1 v2 :
  truthy (includeAttributes options) = true ->
  truthy (preserveLineBreaks options) = true ->
  truthy (includeToc options) = false ->
  attributes options = Some [(k, v1 ++ str "$&" ++ v2)] ->
  free (chr "$") k = true -> free (chr "$") v1 = true -> free (chr "$") v2 = true ->
  search re_first_heading [] (add_title s) = Some (before, y) ->
  let h := matched (rev before) y in
  postProcessAsciidoc s options =
    before ++ h ++ [nl] ++
    lines ["Author Name <author@example.com>"; ":toc: left"; ":icons: font";
           ":source-highlighter: highlight.js"; ":"] ++ k ++ str ": " ++ v1 ++ h ++ v2 ++
    [nl] ++ rest y.
Proof.
  intros Hi Hb Ht Ha Hk H1 H2 Hs h.
  destruct (insert_attributes_at options _ _ _ Hi Hs) as (_ & _ & E). fold h in E.
  unfold postProcessAsciidoc, join_lines. rewrite fix_tables_id, Hb, E. cbn [negb].
  do 3 f_equal. unfold attribute_block. rewrite Ha, Ht. cbn [fold_left fst snd].
  replace (((((([] ++ str "Author Name <author@example.com>" ++ [nl]) ++
              str ":toc: left" ++ [nl]) ++ str ":icons: font" ++ [nl]) ++
            str ":source-highlighter: highlight.js" ++ [nl]) ++
           str ":" ++ k ++ str ": " ++ (v1 ++ str "$&" ++ v2) ++ [nl]))
    with ((lines ["Author Name <author@example.com>"; ":toc: left"; ":icons: font";
                  ":source-highlighter: highlight.js"; ":"] ++ k ++ str ": " ++ v1) ++
          str "$&" ++ v2 ++ [nl])
    by (cbn [lines app str]; rewrite <- ?app_assoc; reflexivity).
  rewrite getSubstitution_app.
  - change (getSubstitution h before (rest y) [h] (str "$&" ++ v2 ++ [nl]))
      with (h ++ getSubstitution h before (rest y) [h] (v2 ++ [nl])).
    rewrite getSubstitution_plain by (rewrite free_app, H2; reflexivity).
    rewrite <- !app_assoc. reflexivity.
  - rewrite !free_app, Hk, H1. reflexivity.
Qed.

Lemma attribute_value_read_as_pattern_witness :
  postProcessAsciidoc (lines ["= T"; "text"])
    (Options None (Some true) (Some [(str "ref", str "see $& here")]) (Some true) None None) =
    lines ["= T"; "Author Name <author@example.com>"; ":toc: left"; ":icons: font";
           ":source-highlighter: highlight.js"; ":ref: see = T here"; ""; "text"].
Proof.
  exact (attribute_value_read_as_pattern (lines ["= T"; "text"])
           (Options None (Some true) (Some [(str "ref", str "see $& here")]) (Some true) None None)
           [] (State (rev (str "= T")) (nl :: str "text") [str "= T"])
           (str "ref") (str "see ") (str " here")
           eq_refl eq_refl eq_refl eq_refl eq_refl eq_refl eq_refl eq_refl).
Defined.

(** ** postProcessAsciidoc: joining lines *)

(** The two classes of the joining pattern. *)
Definition before_break : char -> bool :=
  noneOf [chr "="; chr "-"; chr "*"; chr "."; newline].
Definition after_break : char -> bool :=
  noneOf [chr "="; chr "-"; chr "*"; chr "."; newline; cls_s].

Definition join_pattern : replacer := by_pattern (str "$1 $2").

(** The joining pattern looks at three characters. *)
Lemma exec_join b s :
  exec re_join b s =
    match s with
    | x :: n :: y :: r =>
        if before_break x && newline n && after_break y
        then Some (State (y :: n :: x :: b) r [[x]; [y]])
        else None
    | _ => None
    end.
Proof.
  unfold exec, re_join, cat. fold before_break. fold after_break.
  destruct s as [|x [|n [|y r]]]; cbn [matcher bef rest caps].
  - reflexivity.
  - destruct (before_break x); cbn [matcher bef rest caps andb]; reflexivity.
  - destruct (before_break x); cbn [matcher bef rest caps andb]; [|reflexivity].
    destruct (newline n); reflexivity.
  - destruct (before_break x); cbn [matcher bef rest caps andb]; [|reflexivity].
    destruct (newline n); cbn [andb]; [|reflexivity].
    destruct (after_break y); [|reflexivity].
    cbn [bef rest caps app].
    rewrite (capture_text [x] b (x :: b)) by reflexivity.
    rewrite (capture_text [y] (n :: x :: b) (y :: n :: x :: b)) by reflexivity.
    reflexivity.
Qed.

Lemma scan_join b s :
  scan re_join join_pattern true 0 b s =
    match s with
    | x :: n :: y :: r =>
        if before_break x && newline n && after_break y
        then x :: 32%N :: y :: scan re_join join_pattern true 0 (y :: n :: x :: b) r
        else x :: scan re_join join_pattern true 0 (x :: b) (n :: y :: r)
    | x :: r => x :: scan re_join join_pattern true 0 (x :: b) r
    | [] => []
    end.
Proof.
  destruct s as [|x [|n [|y r]]].
  - apply scan_end. apply exec_join.
  - apply scan_miss. apply exec_join.
  - apply scan_miss. apply exec_join.
  - destruct (before_break x && newline n && after_break y) eqn:C.
    + assert (E : exec re_join b (x :: n :: y :: r) =
                  Some (State (y :: n :: x :: b) r [[x]; [y]]))
        by (rewrite exec_join, C; reflexivity).
      assert (Hm : matched b (State (y :: n :: x :: b) r [[x]; [y]]) = [x; n; y])
        by (apply (capture_text [x; n; y] b); reflexivity).
      rewrite (scan_hit _ _ _ _ _ E) by (rewrite Hm; discriminate).
      rewrite Hm. reflexivity.
    + apply scan_miss. rewrite exec_join, C. reflexivity.
Qed.

(** The joining does not depend on the text before the place it stands at. *)
Lemma scan_join_context : forall n s b b',
  length s <= n ->
  scan re_join join_pattern true 0 b s = scan re_join join_pattern true 0 b' s.
Proof.
  induction n as [|k IH]; intros s b b' Hn.
  - destruct s; [reflexivity | simpl in Hn; lia].
  - rewrite (scan_join b), (scan_join b').
    destruct s as [|x [|n [|y r]]]; try reflexivity.
    all: try destruct (before_break x && newline n && after_break y).
    all: first [ do 3 f_equal; apply IH; simpl in *; lia
               | f_equal; apply IH; simpl in *; lia ].
Qed.

Lemma scan_join_nl b s :
  scan re_join join_pattern true 0 b (nl :: s) =
    nl :: scan re_join join_pattern true 0 (nl :: b) s.
Proof. rewrite scan_join. destruct s as [|y [|z r]]; reflexivity. Qed.

Lemma scan_join_here b s :
  scan re_join join_pattern true 0 b s = scan re_join join_pattern true 0 [] s.
Proof. apply (scan_join_context (length s)). reflexivity. Qed.

(** A character that cannot end a joined line cannot begin one either. *)
Lemma before_after x : before_break x = false -> after_break x = false.
Proof.
  unfold before_break, after_break, noneOf, oneOf. cbn [existsb].
  rewrite !negb_false_iff, !orb_true_iff. tauto.
Qed.

Lemma before_not_newline x : before_break x = true -> newline x = false.
Proof.
  unfold before_break, noneOf, oneOf. cbn [existsb].
  rewrite negb_true_iff, !orb_false_iff. tauto.
Qed.

(** The line break before a character that cannot begin a joined line. *)
Lemma scan_join_before y q :
  after_break y = false ->
  forall n p b, length p <= n ->
    scan re_join join_pattern true 0 b (p ++ nl :: y :: q) =
      scan re_join join_pattern true 0 b p ++
      nl :: scan re_join join_pattern true 0 [] (y :: q).
Proof.
  intros Hy. induction n as [|k IH]; intros p b Hn.
  - destruct p; [|simpl in Hn; lia]. cbn [app].
    rewrite scan_join_nl, (scan_join b []), (scan_join_here (nl :: b)). reflexivity.
  - destruct p as [|x p]; [apply (IH []); simpl; lia|].
    destruct p as [|n p].
    + cbn [app]. rewrite (scan_join b (x :: nl :: y :: q)), (scan_join b [x]).
      rewrite Hy, andb_false_r. cbn [app]. f_equal. apply (IH []). simpl. lia.
    + destruct p as [|y' p].
      * cbn [app]. rewrite (scan_join b (x :: n :: nl :: y :: q)), (scan_join b [x; n]).
        change (after_break nl) with false. rewrite andb_false_r.
        cbn [app]. f_equal. apply (IH [n]). simpl in *. lia.
      * cbn [app]. rewrite (scan_join b (x :: n :: y' :: p ++ nl :: y :: q)),
          (scan_join b (x :: n :: y' :: p)).
        destruct (before_break x && newline n && after_break y').
        -- cbn [app]. do 3 f_equal. apply IH. simpl in *. lia.
        -- cbn [app]. f_equal. apply (IH (n :: y' :: p)). simpl in *. lia.
Qed.

(** The line break after a character that cannot end a joined line. *)
Lemma scan_join_after x q :
  before_break x = false ->
  forall n p b, length p <= n ->
    scan re_join join_pattern true 0 b (p ++ x :: nl :: q) =
      scan re_join join_pattern true 0 b (p ++ [x]) ++
      nl :: scan re_join join_pattern true 0 [] q.
Proof.
  intros Hx. pose proof (before_after x Hx) as Hx'.
  induction n as [|k IH]; intros p b Hn.
  - destruct p; [|simpl in Hn; lia]. cbn [app].
    rewrite (scan_join b (x :: nl :: q)), (scan_join b [x]).
    rewrite (scan_join (x :: b) []).
    destruct q as [|z r].
    + rewrite (scan_join (x :: b) [nl]), (scan_join _ []), (scan_join [] []). reflexivity.
    + rewrite Hx. cbn [andb app]. rewrite scan_join_nl, (scan_join_here (nl :: x :: b)).
      reflexivity.
  - destruct p as [|x' p]; [apply (IH []); simpl; lia|].
    destruct p as [|n p].
    + cbn [app]. rewrite (scan_join b (x' :: x :: nl :: q)), (scan_join b [x'; x]).
      change (after_break nl) with false. rewrite andb_false_r.
      cbn [app]. f_equal. apply (IH []). simpl. lia.
    + destruct p as [|y' p].
      * cbn [app]. rewrite (scan_join b (x' :: n :: x :: nl :: q)),
          (scan_join b [x'; n; x]).
        rewrite Hx', andb_false_r. cbn [app]. f_equal. apply (IH [n]). simpl in *. lia.
      * cbn [app]. rewrite (scan_join b (x' :: n :: y' :: p ++ x :: nl :: q)),
          (scan_join b (x' :: n :: y' :: p ++ [x])).
        destruct (before_break x' && newline n && after_break y').
        -- cbn [app]. do 3 f_equal. apply IH. simpl in *. lia.
        -- cbn [app]. f_equal. apply (IH (n :: y' :: p)). simpl in *. lia.
Qed.

(** Line breaks that always stay. The joining pattern needs, around a line
    break, a character before it other than [=], [-], [*], [.] and newline,
    and one after it other than these and white space. So the break before
    a line that begins with [=], [-], [*], [.] or white space, or that is
    empty, stays, and so does the break after a line that ends with [=],
    [-], [*] or [.], or that is empty; the texts on the two sides are
    joined each on its own. In particular the joining works paragraph by
    paragraph. *)
Theorem line_breaks_kept options p q :
  (forall y, after_break y = false ->
     join_lines options (p ++ nl :: y :: q) =
       join_lines options p ++ nl :: join_lines options (y :: q)) /\
  (forall x, before_break x = false ->
     join_lines options (p ++ x :: nl :: q) =
       join_lines options (p ++ [x]) ++ nl :: join_lines options q) /\
  join_lines options (p ++ [nl; nl] ++ q) =
    join_lines options p ++ [nl; nl] ++ join_lines options q.
Proof.
  unfold join_lines. destruct (negb (truthy (preserveLineBreaks options))).
  - unfold replace_all. fold join_pattern. split; [|split].
    + intros y Hy. apply (scan_join_before y q Hy (length p)). reflexivity.
    + intros x Hx. apply (scan_join_after x q Hx (length p)). reflexivity.
    + cbn [app]. rewrite (scan_join_before nl q eq_refl (length p)) by reflexivity.
      rewrite scan_join_nl, (scan_join_here [nl]). reflexivity.
  - split; [|split]; intros; rewrite <- ?app_assoc; reflexivity.
Qed.

Lemma scan_join_first x y q :
  before_break x = true -> after_break y = true ->
  forall p b, free newline p = true ->
    scan re_join join_pattern true 0 b (p ++ x :: nl :: y :: q) =
      p ++ x :: 32%N :: y :: scan re_join join_pattern true 0 [] q.
Proof.
  intros Hx Hy. pose proof (before_not_newline x Hx) as Hn.
  induction p as [|c p IH]; intros b Hp.
  - cbn [app]. rewrite scan_join. rewrite Hx, Hy. change (newline nl) with true.
    cbn [andb]. rewrite scan_join_here. reflexivity.
  - unfold free in Hp. cbn [forallb] in Hp. apply andb_true_iff in Hp as [Hc Hp].
    cbn [app]. rewrite scan_join.
    destruct p as [|c' p]; cbn [app].
    + rewrite Hn, andb_false_r. cbn [andb]. f_equal. apply (IH (c :: b)). reflexivity.
    + cbn [forallb] in Hp. apply andb_true_iff in Hp as [Hc' Hp'].
      apply negb_true_iff in Hc'.
      destruct p as [|c'' p]; cbn [app]; rewrite Hc', andb_false_r; cbn [andb];
        f_equal; apply (IH (c :: b)); unfold free; cbn [forallb];
        rewrite Hc'; cbn [negb andb]; try exact Hp'; reflexivity.
Qed.

(** A line break that goes. Unless line breaks are preserved, the first
    line break of a text becomes a space when the character before it is
    none of [=], [-], [*] and [.] and the character after it is none of
    these and no white space; the first line is kept and the rest is joined
    on its own. *)
Theorem first_line_break_joined options p x y q :
  truthy (preserveLineBreaks options) = false ->
  free newline p = true ->
  before_break x = true -> after_break y = true ->
  join_lines options (p ++ x :: nl :: y :: q) =
    p ++ x :: 32%N :: y :: join_lines options q.
Proof.
  intros Hp Hf Hx Hy. unfold join_lines. rewrite Hp. cbn [negb].
  unfold replace_all. fold join_pattern. apply scan_join_first; assumption.
Qed.

Lemma first_line_break_joined_witness :
  join_lines no_options (lines ["Some content"; "More content"]) =
    str "Some content More content".
Proof.
  exact (first_line_break_joined no_options (str "Some conten") 116%N 77%N (str "ore content")
           eq_refl eq_refl eq_refl eq_refl).
Defined.

End MarkdownFacts.

(* ===================================================================== *)
(** * Effects: state that survives exceptions                             *)
(* ===================================================================== *)

Module Effects.

(** [new Error(message)] *)
Record Error := mkError { message : string }.

Inductive outcome (A : Type) :=
| Returns (a : A)
| Throws (e : Error).
Arguments Returns {A} a.
Arguments Throws {A} e.

(** A computation over a state [S]: what an [await]ed call leaves behind
    and how it completes. A throw keeps the state reached so far. *)
Definition M (S A : Type) : Type := S -> S * outcome A.

Definition ret {S A} (a : A) : M S A := fun s => (s, Returns a).

Definition throw {S A} (e : Error) : M S A := fun s => (s, Throws e).

Definition bind {S A B} (m : M S A) (k : A -> M S B) : M S B :=
  fun s =>
    match m s with
    | (s', Returns a) => k a s'
    | (s', Throws e) => (s', Throws e)
    end.

(** [try { m } catch (error) { handler(error) }] *)
Definition try_catch {S A} (m : M S A) (handler : Error -> M S A) : M S A :=
  fun s =>
    match m s with
    | (s', Returns a) => (s', Returns a)
    | (s', Throws e) => handler e s'
    end.

Definition gets {S A} (f : S -> A) : M S A := fun s => (s, Returns (f s)).

Definition modify {S} (f : S -> S) : M S unit := fun s => (f s, Returns tt).

(** [if (c) { m }] *)
Definition when {S} (c : bool) (m : M S unit) : M S unit :=
  if c then m else ret tt.

Declare Scope effects_scope.
Delimit Scope effects_scope with effects.
Notation "'let*' x ':=' m 'in' k" := (bind m (fun x => k))
  (at level 10, x name, m at level 100, k at level 200) : effects_scope.

(** A string option of JavaScript is truthy when it is set and not empty. *)
Definition truthy_string (o : option string) : bool :=
  match o with
  | Some s => negb (String.eqb s "")
  | None => false
  end.

(** [o || d] for a string *)
Definition or_string (o : option string) (d : string) : string :=
  match o with
  | Some s => if String.eqb s "" then d else s
  | None => d
  end.

(** A synchronous call that returns or throws, and leaves the state alone. *)
Definition of_outcome {S A} (r : outcome A) : M S A := fun s => (s, r).

End Effects.

(* ===================================================================== *)
(** * docx2ascii.ts: validateDocxFile                                     *)
(* ===================================================================== *)

Module DocxFiles.
Import Effects.
Local Open Scope effects_scope.

Section Validate.
(** The file system, and mammoth's [extractRawText], which may read it and
    may reject. *)
Variables (FS text : Type).
Variable existsSync : FS -> string -> bool.
Variable extractRawText : string -> M FS text.

(** [console.error] prints and returns. *)
Definition console_error (_ : string) (_ : Error) : M FS unit := ret tt.

Definition validateDocxFile (filePath : string) : M FS bool :=
  try_catch
    (let* missing := gets (fun fs => negb (existsSync fs filePath)) in
     if missing then ret false
     else
       let* _ := extractRawText filePath in
       ret true)
    (fun error =>
       let* _ := console_error ("Invalid DOCX file: " +:+ filePath) error in
       ret false).

(** C10. [validateDocxFile] never throws: it returns [false] when the file
    does not exist or when the extraction of its raw text fails, and [true]
    exactly when the file exists and the extraction succeeds. *)
Theorem validateDocxFile_total filePath fs :
  exists fs' b,
    validateDocxFile filePath fs = (fs', Returns b) /\
    (b = true <->
     existsSync fs filePath = true /\
     exists t, snd (extractRawText filePath fs) = Returns t) /\
    (existsSync fs filePath = false -> b = false) /\
    ((exists e, snd (extractRawText filePath fs) = Throws e) -> b = false).
Proof.
  unfold validateDocxFile, try_catch, bind, gets, ret, console_error.
  destruct (existsSync fs filePath) eqn:E; simpl.
  - destruct (extractRawText filePath fs) as [fs' [t|e]] eqn:X; simpl.
    + exists fs', true. repeat split; eauto; try discriminate.
      intros (e & He). discriminate.
    + exists fs', false. repeat split; auto; try discriminate.
      intros (_ & t & Ht). discriminate.
  - exists fs, false. repeat split; auto; try discriminate.
    intros (H & _). discriminate.
Qed.

End Validate.

(** ** convertDocxToAsciidoc *)

Import JS Docx2Ascii.

Section Pipeline.
(** The file system, and the values of the two libraries. *)
Variables (FS html warning : Type).
Variable existsSync : FS -> string -> bool.
Variable dirname : string -> string.
Variable mkdirSync : string -> M FS unit.
Variable writeFileSync : string -> jsstring -> M FS unit.
(** [mammoth.convertToHtml({ path })], which resolves to [{ value, messages }] *)
Variable convertToHtml : string -> M FS (html * list warning).
(** [new turndown({ headingStyle: 'atx', codeBlockStyle, bulletListMarker: '*',
    emDelimiter: '_', strongDelimiter: '*' })] with the [tables] rule added,
    applied to the HTML *)
Variable turndown : CodeBlockStyle -> html -> outcome jsstring.

(** [console.log] and [console.warn] print and return. *)
Definition console_log (_ : string) : M FS unit := ret tt.
Definition console_warn (_ : string) (_ : list warning) : M FS unit := ret tt.

Definition convertDocxToAsciidoc (docxPath : string) (outputPath : option string)
    (options : DocxToAsciidocOptions) : M FS jsstring :=
  try_catch
    (let* missing := gets (fun fs => negb (existsSync fs docxPath)) in
     let* _ := when missing
                 (throw (mkError ("Input DOCX file not found: " +:+ docxPath))) in
     (* Step 1 *)
     let* _ := console_log "Converting DOCX to HTML..." in
     let* converted := convertToHtml docxPath in
     let html := fst converted in
     let messages := snd converted in
     let* _ := when (negb (Nat.eqb (length messages) 0))
                 (console_warn "Conversion warnings:" messages) in
     (* Steps 2 and 3 *)
     let* _ := console_log "Converting HTML to Markdown..." in
     let* markdown := of_outcome (turndown (default fenced (codeBlockStyle options)) html) in
     (* Steps 4 and 5 *)
     let* _ := console_log "Converting Markdown to AsciiDoc..." in
     let asciidoc := markdownToAsciidoc markdown options in
     let asciidoc := postProcessAsciidoc asciidoc options in
     (* Step 6 *)
     let* _ :=
       (if truthy_string outputPath then
          let path := default "" outputPath in
          let outputDir := dirname path in
          let* missingDir := gets (fun fs => negb (existsSync fs outputDir)) in
          let* _ := when missingDir (mkdirSync outputDir) in
          let* _ := writeFileSync path asciidoc in
          console_log ("Successfully converted DOCX to AsciiDoc: " +:+ path)
        else ret tt) in
     ret asciidoc)
    (fun error =>
       let* _ := console_error FS "Error converting DOCX to AsciiDoc:" error in
       throw (mkError ("Failed to convert DOCX to AsciiDoc: " +:+ message error))).

(** The file system in which the output is written: the one the conversion
    to HTML left, with the output directory made if it was missing. *)
Definition with_directory (path : string) (fs : FS) : FS * outcome unit :=
  if existsSync fs (dirname path) then (fs, Returns tt) else mkdirSync (dirname path) fs.

(** When [convertDocxToAsciidoc] returns, the input file existed, the two
    libraries returned, and what is returned is the Markdown they gave,
    carried through [markdownToAsciidoc] and [postProcessAsciidoc]. Without
    an output path nothing is written; with one, the output directory is
    made exactly when it is missing and the file written holds exactly the
    text that is returned. *)
Theorem docx_conversion_returns docxPath outputPath options fs fs' a :
  convertDocxToAsciidoc docxPath outputPath options fs = (fs', Returns a) ->
  existsSync fs docxPath = true /\
  exists h msgs fs1 md,
    convertToHtml docxPath fs = (fs1, Returns (h, msgs)) /\
    turndown (default fenced (codeBlockStyle options)) h = Returns md /\
    a = postProcessAsciidoc (markdownToAsciidoc md options) options /\
    (truthy_string outputPath = false -> fs' = fs1) /\
    (truthy_string outputPath = true ->
     exists fs2,
       with_directory (default "" outputPath) fs1 = (fs2, Returns tt) /\
       writeFileSync (default "" outputPath) a fs2 = (fs', Returns tt)).
Proof.
  cbv [convertDocxToAsciidoc try_catch bind gets when throw ret console_log
       console_warn console_error of_outcome with_directory].
  destruct (existsSync fs docxPath) eqn:Hx; cbn [negb]; [|discriminate].
  destruct (convertToHtml docxPath fs) as [fs1 [[h msgs]|e]] eqn:Hc; [|discriminate].
  cbn [fst snd].
  destruct (negb (Nat.eqb (length msgs) 0));
    (destruct (turndown (default fenced (codeBlockStyle options)) h) as [md|e] eqn:Ht;
     [|discriminate]);
    (destruct (truthy_string outputPath) eqn:Ho;
     [ destruct (existsSync fs1 (dirname (default "" outputPath))) eqn:Hd; cbn [negb];
       [ destruct (writeFileSync (default "" outputPath) _ fs1) as [fs3 [[]|e]] eqn:Hw;
         [|discriminate]
       | destruct (mkdirSync (dirname (default "" outputPath)) fs1) as [fs2 [[]|e]] eqn:Hm;
         [|discriminate];
         destruct (writeFileSync (default "" outputPath) _ fs2) as [fs3 [[]|e]] eqn:Hw;
         [|discriminate] ]
     | ]);
    intros H; injection H as <- <-; (split; [reflexivity|]);
    exists h, msgs, fs1, md; repeat split; try discriminate; eauto.
  all: intros _; rewrite Hd; rewrite ?Hm; eauto.
Qed.

(** [convertDocxToAsciidoc] rejects with no other error than one whose
    message begins [Failed to convert DOCX to AsciiDoc: ]. When the input
    file does not exist the cause is [Input DOCX file not found] with the
    path, no library is called and the file system stays as it was; when
    the conversion to Markdown fails nothing is written. *)
Theorem docx_conversion_rejects docxPath outputPath options fs :
  (forall fs' e,
     convertDocxToAsciidoc docxPath outputPath options fs = (fs', Throws e) ->
     exists cause, e = mkError ("Failed to convert DOCX to AsciiDoc: " +:+ cause)) /\
  (existsSync fs docxPath = false ->
   convertDocxToAsciidoc docxPath outputPath options fs =
     (fs, Throws (mkError ("Failed to convert DOCX to AsciiDoc: " +:+
                           ("Input DOCX file not found: " +:+ docxPath))))) /\
  (forall fs1 h msgs e,
     existsSync fs docxPath = true ->
     convertToHtml docxPath fs = (fs1, Returns (h, msgs)) ->
     turndown (default fenced (codeBlockStyle options)) h = Throws e ->
     convertDocxToAsciidoc docxPath outputPath options fs =
       (fs1, Throws (mkError ("Failed to convert DOCX to AsciiDoc: " +:+ message e)))).
Proof.
  split; [|split].
  - intros fs' e. unfold convertDocxToAsciidoc, try_catch.
    match goal with
    | |- (let (s', o) := ?m in _) = _ -> _ => destruct m as [fs0 [a0|e0]]
    end.
    + discriminate.
    + cbv [bind console_error ret throw]. intros H. injection H as _ <-. eauto.
  - intros Hx.
    cbv [convertDocxToAsciidoc try_catch bind gets when throw ret console_error].
    rewrite Hx. reflexivity.
  - intros fs1 h msgs e Hx Hc Ht.
    cbv [convertDocxToAsciidoc try_catch bind gets when throw ret console_log
         console_warn console_error of_outcome].
    rewrite Hx. cbn [negb]. rewrite Hc. cbn [fst snd].
    destruct (negb (Nat.eqb (length msgs) 0)); rewrite Ht; reflexivity.
Qed.

End Pipeline.

(** ** A file system to run the conversion on

    A file system is the list of its paths with their contents; the two
    libraries are stand-ins, with the Markdown the repository's tests use. *)

Definition demo_fs : Type := list (string * jsstring).

Definition demo_exists (fs : demo_fs) (path : string) : bool :=
  existsb (fun f => String.eqb (fst f) path) fs.

Definition demo_markdown : jsstring :=
  lines ["# Test Document"; ""; "This is a test paragraph."; ""; "* Item 1"; "* Item 2"].

Definition demo_convertDocxToAsciidoc :=
  convertDocxToAsciidoc demo_fs string string demo_exists (fun _ => "/test/output")
    (fun dir fs => ((dir, []) :: fs, Returns tt))
    (fun path content fs => ((path, content) :: fs, Returns tt))
    (fun _ => ret ("<h1>Test Document</h1>", []))
    (fun _ _ => Returns demo_markdown).

Lemma docx_conversion_returns_witness :
  exists fs2,
    with_directory demo_fs demo_exists (fun _ => "/test/output")
      (fun dir fs => ((dir, []) :: fs, Returns tt))
      "/test/output/test.adoc" [("/test/input/test.docx", [])] = (fs2, Returns tt) /\
    ((("/test/output/test.adoc",
       lines ["= Test Document"; ""; "This is a test paragraph."; ""; "* Item 1"; "* Item 2"])
      :: fs2, Returns tt) : demo_fs * outcome unit) =
    (fst (demo_convertDocxToAsciidoc "/test/input/test.docx" (Some "/test/output/test.adoc")
            no_options [("/test/input/test.docx", [])]), Returns tt).
Proof.
  destruct (docx_conversion_returns demo_fs string string demo_exists (fun _ => "/test/output")
              (fun dir fs => ((dir, []) :: fs, Returns tt))
              (fun path content fs => ((path, content) :: fs, Returns tt))
              (fun _ => ret ("<h1>Test Document</h1>", []))
              (fun _ _ => Returns demo_markdown)
              "/test/input/test.docx" (Some "/test/output/test.adoc") no_options
              [("/test/input/test.docx", [])]
              (fst (demo_convertDocxToAsciidoc "/test/input/test.docx"
                      (Some "/test/output/test.adoc") no_options
                      [("/test/input/test.docx", [])]))
              (lines ["= Test Document"; ""; "This is a test paragraph."; ""; "* Item 1";
                      "* Item 2"])
              eq_refl)
    as (_ & h & msgs & fs1 & md & Hc & _ & _ & _ & H).
  injection Hc as <- _ _.
  destruct (H eq_refl) as (fs2 & H2 & H3). exists fs2. split; [exact H2 | exact H3].
Defined.

End DocxFiles.

(* ===================================================================== *)
(** * ascii2docx.ts: convertAsciidocToDocx                                *)
(* ===================================================================== *)

Module Ascii2Docx.
Import Effects.
Local Open Scope effects_scope.

Inductive Orientation := portrait | landscape.

Record Margins := {
  top : option nat; right : option nat; bottom : option nat; left : option nat
}.

(** [DocxConversionOptions] *)
Record DocxConversionOptions := {
  title : option string;
  margins : option Margins;
  header : option string;
  footer : option string;
  orientation : option Orientation;
  author : option string;
  fontSize : option nat;
  templatePath : option string
}.

(** [conversionConfig] *)
Record Config := {
  config_title : string;
  config_margins : Margins;
  config_orientation : Orientation;
  config_header : option string;
  config_footer : option string;
  config_author : option string;
  config_fontSize : option nat
}.

Definition default_margins : Margins :=
  {| top := Some 1440; right := Some 1440; bottom := Some 1440; left := Some 1440 |}.

(** [if (options.x) conversionConfig.x = options.x] *)
Definition if_string (o : option string) : option string :=
  if truthy_string o then o else None.

Definition if_number (o : option nat) : option nat :=
  match o with
  | Some (S n) => Some (S n)
  | _ => None
  end.

Definition conversionConfig (options : DocxConversionOptions) : Config :=
  {| config_title := or_string (title options) "Converted Document";
     config_margins := default default_margins (margins options);
     config_orientation := default portrait (orientation options);
     config_header := if_string (header options);
     config_footer := if_string (footer options);
     config_author := if_string (author options);
     config_fontSize := if_number (fontSize options) |}.

Section Convert.
(** The file system, and the values of the two libraries. *)
Variables (FS html buffer : Type).
Variable existsSync : FS -> string -> bool.
Variable readFileSync : string -> M FS buffer.
Variable mkdirSync : string -> M FS unit.
Variable writeFileSync : string -> buffer -> M FS unit.
Variable dirname : string -> string.
(** [Asciidoctor().convert(content, { standalone, safe, attributes })] *)
Variable asciidoctor_convert : string -> M FS html.
(** [HTMLtoDOCX(html, template, config)] *)
Variable HTMLtoDOCX : html -> option buffer -> Config -> M FS buffer.

(** The calls a conversion made are recorded next to the file system. *)
Inductive call :=
| ReadFile (path : string)
| HtmlToDocx (h : html) (template : option buffer) (c : Config).

Record world := World { fs : FS; calls : list call }.

Definition lift {A} (m : M FS A) : M world A :=
  fun w =>
    let (fs', r) := m (fs w) in
    (World fs' (calls w), r).

Definition record (c : call) : M world unit :=
  modify (fun w => World (fs w) (calls w ++ [c])).

Definition convertAsciidocToDocx (asciidocContent outputPath : string)
    (options : DocxConversionOptions) : M world string :=
  try_catch
    ((* Step 1 *)
     let* h := lift (asciidoctor_convert asciidocContent) in
     (* Step 2 *)
     let config := conversionConfig options in
     (* Step 3 *)
     let* present := gets (fun w => truthy_string (templatePath options) &&
                                    existsSync (fs w) (default "" (templatePath options))) in
     let* templateBuffer :=
       (if present
        then
          let* _ := record (ReadFile (default "" (templatePath options))) in
          let* b := lift (readFileSync (default "" (templatePath options))) in
          ret (Some b)
        else ret None) in
     (* Step 4 *)
     let* _ := record (HtmlToDocx h templateBuffer config) in
     let* docxBuffer := lift (HTMLtoDOCX h templateBuffer config) in
     (* Step 5 *)
     let outputDir := dirname outputPath in
     let* missing := gets (fun w => negb (existsSync (fs w) outputDir)) in
     let* _ := when missing (lift (mkdirSync outputDir)) in
     (* Step 6 *)
     let* _ := lift (writeFileSync outputPath docxBuffer) in
     ret outputPath)
    (fun error =>
       throw (mkError ("Failed to convert AsciiDoc to DOCX: " +:+ message error))).


(** ** What is written, and what is thrown *)

(** The file system in which the document is written: with the output
    directory made if it was missing. *)
Definition with_output_directory (outputPath : string) (fs0 : FS) : FS * outcome unit :=
  if existsSync fs0 (dirname outputPath) then (fs0, Returns tt)
  else mkdirSync (dirname outputPath) fs0.

(** When [convertAsciidocToDocx] returns, it returns the output path; the
    library generated a document from the rendered text with the
    configuration of the options, the output directory was made exactly
    when it was missing, and the file written at the output path holds
    that document. When it rejects, the message begins
    [Failed to convert AsciiDoc to DOCX: ]. *)
Theorem docx_document_written content outputPath options w w' r :
  convertAsciidocToDocx content outputPath options w = (w', r) ->
  (forall p, r = Returns p ->
     p = outputPath /\
     exists h t d fs2 fs3 fs4,
       In (HtmlToDocx h t (conversionConfig options)) (calls w') /\
       HTMLtoDOCX h t (conversionConfig options) fs2 = (fs3, Returns d) /\
       with_output_directory outputPath fs3 = (fs4, Returns tt) /\
       writeFileSync outputPath d fs4 = (fs w', Returns tt)) /\
  (forall e, r = Throws e ->
     exists cause, e = mkError ("Failed to convert AsciiDoc to DOCX: " +:+ cause)).
Proof.
  intros H. split.
  - intros p ->. revert H.
    cbv [convertAsciidocToDocx try_catch bind lift gets record modify when ret throw
         with_output_directory].
    destruct (asciidoctor_convert content (fs w)) as [fs1 [h|e]]; cbn [fs calls];
      [|discriminate].
    destruct (truthy_string (templatePath options) &&
              existsSync fs1 (default "" (templatePath options))); cbn [fs calls].
    + destruct (readFileSync (default "" (templatePath options)) fs1) as [fs2 [b|e]];
        cbn [fs calls]; [|discriminate].
      destruct (HTMLtoDOCX h (Some b) (conversionConfig options) fs2) as [fs3 [d|e]] eqn:Hg;
        cbn [fs calls]; [|discriminate].
      destruct (existsSync fs3 (dirname outputPath)) eqn:Hd; cbn [negb fs calls].
      * destruct (writeFileSync outputPath d fs3) as [fs5 [[]|e]] eqn:Hw; cbn [fs calls];
          [|discriminate].
        intros E. injection E as <- <-. split; [reflexivity|].
        exists h, (Some b), d, fs2, fs3, fs3. cbn [fs calls]. rewrite Hd.
        repeat split; auto. rewrite !in_app_iff. simpl. auto.
      * destruct (mkdirSync (dirname outputPath) fs3) as [fs4 [[]|e]] eqn:Hm; cbn [fs calls];
          [|discriminate].
        destruct (writeFileSync outputPath d fs4) as [fs5 [[]|e]] eqn:Hw; cbn [fs calls];
          [|discriminate].
        intros E. injection E as <- <-. split; [reflexivity|].
        exists h, (Some b), d, fs2, fs3, fs4. cbn [fs calls]. rewrite Hd.
        repeat split; auto. rewrite !in_app_iff. simpl. auto.
    + destruct (HTMLtoDOCX h None (conversionConfig options) fs1) as [fs3 [d|e]] eqn:Hg;
        cbn [fs calls]; [|discriminate].
      destruct (existsSync fs3 (dirname outputPath)) eqn:Hd; cbn [negb fs calls].
      * destruct (writeFileSync outputPath d fs3) as [fs5 [[]|e]] eqn:Hw; cbn [fs calls];
          [|discriminate].
        intros E. injection E as <- <-. split; [reflexivity|].
        exists h, None, d, fs1, fs3, fs3. cbn [fs calls]. rewrite Hd.
        repeat split; auto. rewrite !in_app_iff. simpl. auto.
      * destruct (mkdirSync (dirname outputPath) fs3) as [fs4 [[]|e]] eqn:Hm; cbn [fs calls];
          [|discriminate].
        destruct (writeFileSync outputPath d fs4) as [fs5 [[]|e]] eqn:Hw; cbn [fs calls];
          [|discriminate].
        intros E. injection E as <- <-. split; [reflexivity|].
        exists h, None, d, fs1, fs3, fs4. cbn [fs calls]. rewrite Hd.
        repeat split; auto. rewrite !in_app_iff. simpl. auto.
  - intros e ->. revert H. unfold convertAsciidocToDocx, try_catch.
    match goal with
    | |- (let (s', o) := ?m in _) = _ -> _ => destruct m as [w0 [a0|e0]]
    end.
    + discriminate.
    + unfold throw. intros E. injection E as _ <-. eauto.
Qed.

(** ** readAsciidocFile and convertFile *)

(** [fs.readFileSync(path, 'utf8')] *)
Variable readTextSync : string -> M FS string.

Definition readAsciidocFile (filePath : string) : M world string :=
  let* missing := gets (fun w => negb (existsSync (fs w) filePath)) in
  let* _ := when missing (throw (mkError ("File not found: " +:+ filePath))) in
  lift (readTextSync filePath).

(** The options [{ templatePath }]. *)
Definition only_template (templatePath : option string) : DocxConversionOptions :=
  {| title := None; margins := None; header := None; footer := None; orientation := None;
     author := None; fontSize := None; templatePath := templatePath |}.

Definition convertFile (inputPath outputPath : string) (templatePath : option string)
    : M world string :=
  try_catch
    (let* asciidocContent := readAsciidocFile inputPath in
     convertAsciidocToDocx asciidocContent outputPath (only_template templatePath))
    (fun error => throw error).

(** [convertFile] throws again what it caught. For an input file that does
    not exist this is [File not found] with the path, as it is, without the
    prefix of a failed conversion, and no library was called; for one that
    exists and can be read the call is [convertAsciidocToDocx] on its
    content with no option but the template path, so with the default
    title, margins and orientation. *)
Theorem convertFile_reads_then_converts inputPath outputPath templatePath w :
  (existsSync (fs w) inputPath = false ->
   convertFile inputPath outputPath templatePath w =
     (w, Throws (mkError ("File not found: " +:+ inputPath)))) /\
  (forall fs1 content,
     existsSync (fs w) inputPath = true ->
     readTextSync inputPath (fs w) = (fs1, Returns content) ->
     convertFile inputPath outputPath templatePath w =
       convertAsciidocToDocx content outputPath (only_template templatePath)
         (World fs1 (calls w)) /\
     conversionConfig (only_template templatePath) =
       {| config_title := "Converted Document"; config_margins := default_margins;
          config_orientation := portrait; config_header := None; config_footer := None;
          config_author := None; config_fontSize := None |}).
Proof.
  split.
  - intros Hx. cbv [convertFile try_catch bind readAsciidocFile gets when throw].
    rewrite Hx. destruct w. reflexivity.
  - intros fs1 content Hx Hr. split; [|reflexivity].
    cbv [convertFile try_catch bind readAsciidocFile gets when throw ret lift].
    rewrite Hx. cbn [negb]. rewrite Hr.
    destruct (convertAsciidocToDocx content outputPath (only_template templatePath)
                (World fs1 (calls w))) as [w1 [p|e]]; reflexivity.
Qed.

End Convert.

Arguments World {FS html buffer} fs calls.
Arguments fs {FS html buffer} w.
Arguments calls {FS html buffer} w.
Arguments ReadFile {html buffer} path.
Arguments HtmlToDocx {html buffer} h template c.

(** ** A file system to run the conversion on

    Files are a function from paths to contents; the two libraries are
    stand-ins that always succeed. *)

Definition demo_fs : Type := string -> option string.

Definition demo_read (path : string) : M demo_fs string :=
  fun files =>
    match files path with
    | Some b => (files, Returns b)
    | None => (files, Throws (mkError ("ENOENT: no such file or directory, open '" +:+ path +:+ "'")))
    end.

Definition demo_write (path content : string) : M demo_fs unit :=
  fun files => (fun q => if String.eqb q path then Some content else files q, Returns tt).

Definition demo_convertAsciidocToDocx :=
  convertAsciidocToDocx demo_fs string string
    (fun files path => match files path with Some _ => true | None => false end)
    demo_read (fun _ => ret tt) demo_write (fun _ => "/out")
    (fun content => ret ("<html>" +:+ content)) (fun _ _ _ => ret "docx").

Definition template_only : demo_fs :=
  fun path => if String.eqb path "/t.docx" then Some "template" else None.

Definition with_template (path : string) : DocxConversionOptions :=
  {| title := None; margins := None; header := None; footer := None; orientation := None;
     author := None; fontSize := None; templatePath := Some path |}.


(** The configuration handed to the library never holds an empty title,
    header, footer or author, nor a font size of 0: an empty title gives
    way to [Converted Document], the others are left out. The margins are
    taken as a whole: a margins object of the options is passed on as it
    is, also when some of its sides are missing, and only when there is
    none do the four sides get 1440. *)
Theorem conversionConfig_falls_back options :
  config_title (conversionConfig options) <> "" /\
  (forall t, title options = Some t -> t <> "" ->
             config_title (conversionConfig options) = t) /\
  (truthy_string (title options) = false ->
   config_title (conversionConfig options) = "Converted Document") /\
  config_header (conversionConfig options) <> Some "" /\
  config_footer (conversionConfig options) <> Some "" /\
  config_author (conversionConfig options) <> Some "" /\
  config_fontSize (conversionConfig options) <> Some 0 /\
  (forall m, margins options = Some m -> config_margins (conversionConfig options) = m) /\
  (margins options = None -> config_margins (conversionConfig options) = default_margins).
Proof.
  assert (Hs : forall o, if_string o <> Some "").
  { intros [x|]; unfold if_string, truthy_string; [|discriminate].
    destruct (String.eqb_spec x ""); cbn [negb]; congruence. }
  destruct options as [t m h f o a n p]. cbn [conversionConfig config_title config_margins
    config_header config_footer config_author config_fontSize title margins header footer
    author fontSize].
  repeat split; auto.
  - destruct t as [x|]; cbn [or_string]; [|discriminate].
    destruct (String.eqb_spec x ""); congruence.
  - intros x -> Hx. cbn [or_string]. destruct (String.eqb_spec x ""); congruence.
  - destruct t as [x|]; cbn [or_string truthy_string]; [|reflexivity].
    destruct (String.eqb x ""); [reflexivity | discriminate].
  - destruct n as [[|k]|]; discriminate.
  - intros x ->. reflexivity.
  - intros ->. reflexivity.
Qed.

Definition demo_existsSync (files : demo_fs) (path : string) : bool :=
  match files path with Some _ => true | None => false end.

Definition demo_HTMLtoDOCX (h : string) (t : option string) (c : Config) : M demo_fs string :=
  ret "docx".

Lemma docx_document_written_witness :
  exists h t d fs2 fs3 fs4,
    In (HtmlToDocx h t (conversionConfig (with_template "/t.docx")))
       (calls (fst (demo_convertAsciidocToDocx "= T" "/out/a.docx" (with_template "/t.docx")
                      (World template_only [])))) /\
    demo_HTMLtoDOCX h t (conversionConfig (with_template "/t.docx")) fs2 = (fs3, Returns d) /\
    with_output_directory demo_fs demo_existsSync (fun _ => ret tt) (fun _ => "/out")
      "/out/a.docx" fs3 = (fs4, Returns tt) /\
    demo_write "/out/a.docx" d fs4 =
      (fs (fst (demo_convertAsciidocToDocx "= T" "/out/a.docx" (with_template "/t.docx")
                  (World template_only []))), Returns tt).
Proof.
  destruct (docx_document_written demo_fs string string demo_existsSync
              demo_read (fun _ => ret tt) demo_write (fun _ => "/out")
              (fun content => ret ("<html>" +:+ content)) demo_HTMLtoDOCX
              "= T" "/out/a.docx" (with_template "/t.docx") (World template_only [])
              (fst (demo_convertAsciidocToDocx "= T" "/out/a.docx" (with_template "/t.docx")
                      (World template_only [])))
              (Returns "/out/a.docx") eq_refl) as (H & _).
  exact (proj2 (H "/out/a.docx" eq_refl)).
Defined.

(** Reading text files from the same file system. *)
Definition demo_convertFile :=
  convertFile demo_fs string string demo_existsSync demo_read (fun _ => ret tt) demo_write
    (fun _ => "/out") (fun content => ret ("<html>" +:+ content)) demo_HTMLtoDOCX demo_read.

Lemma convertFile_reads_then_converts_witness :
  demo_convertFile "/nonexistent.adoc" "/out/a.docx" None (World template_only []) =
    (World template_only [], Throws (mkError "File not found: /nonexistent.adoc")).
Proof.
  exact (proj1 (convertFile_reads_then_converts demo_fs string string demo_existsSync
                  demo_read (fun _ => ret tt) demo_write (fun _ => "/out")
                  (fun content => ret ("<html>" +:+ content)) demo_HTMLtoDOCX demo_read
                  "/nonexistent.adoc" "/out/a.docx" None (World template_only []))
               eq_refl).
Defined.

End Ascii2Docx.

(* ===================================================================== *)
(** * ascii2docx.ts: GeoConverter                                         *)
(* ===================================================================== *)

From Stdlib Require Import QArith Qminmax.

Module Geo.
Import Effects.
Local Open Scope effects_scope.

(** [GeoFormat]. The type is a union of eight string literals; at run time
    any string can arrive (the command line casts its argument), which is
    what the [default] branches are for. *)
Definition GeoFormat := string.

Definition formats : list GeoFormat :=
  ["geojson"; "shapefile"; "kml"; "gml"; "topojson"; "wkt"; "csv"; "geoparquet"].

Definition recognized (format : GeoFormat) : bool :=
  existsb (String.eqb format) formats.

(** ** getFormatFromExtension *)

Section Extension.
(** [String.prototype.toLowerCase] *)
Variable toLowerCase : string -> string.

Definition getFormatFromExtension (ext : string) : outcome GeoFormat :=
  let e := toLowerCase ext in
  if String.eqb e ".json" || String.eqb e ".geojson" then Returns "geojson"
  else if String.eqb e ".shp" then Returns "shapefile"
  else if String.eqb e ".kml" then Returns "kml"
  else if String.eqb e ".gml" then Returns "gml"
  else if String.eqb e ".topojson" then Returns "topojson"
  else if String.eqb e ".wkt" then Returns "wkt"
  else if String.eqb e ".csv" then Returns "csv"
  else if String.eqb e ".parquet" || String.eqb e ".geoparquet" then Returns "geoparquet"
  else Throws (mkError ("Unsupported file extension: " +:+ ext)).

(** The extension table of the [switch]. *)
Definition extension_table : list (string * GeoFormat) :=
  [(".json", "geojson"); (".geojson", "geojson"); (".shp", "shapefile"); (".kml", "kml");
   (".gml", "gml"); (".topojson", "topojson"); (".wkt", "wkt"); (".csv", "csv");
   (".parquet", "geoparquet"); (".geoparquet", "geoparquet")].

(** C4 (as amended). [getFormatFromExtension] lowers the case of the
    extension and looks it up in the table of ten extensions -- the five of
    the claim and [.kml], [.gml], [.topojson], [.wkt], [.csv] -- and throws
    [Unsupported file extension] for every extension that, lowered, is not
    in the table. *)
Theorem getFormatFromExtension_table ext :
  (forall format,
     getFormatFromExtension ext = Returns format <->
     In (toLowerCase ext, format) extension_table) /\
  ((forall format, ~ In (toLowerCase ext, format) extension_table) <->
   getFormatFromExtension ext = Throws (mkError ("Unsupported file extension: " +:+ ext))).
Proof.
  unfold getFormatFromExtension. generalize (toLowerCase ext). intros e.
  unfold extension_table.
  repeat match goal with
         | |- context [String.eqb e ?b] =>
             destruct (String.eqb_spec e b) as [->|?]; cbn [orb]
         end.
  all: split; [intros format; split; intros H | split; intros H].
  all: try discriminate H.
  all: try (injection H as <-; simpl; auto 12; fail).
  all: try (exfalso; eapply H; simpl; eauto 12; fail).
  all: try reflexivity.
  all: try match goal with |- forall _, ~ _ => clear H; intros format H end.
  all: simpl in H;
    repeat (destruct H as [H|H];
            [first [ discriminate H
                   | injection H; intros; subst; first [reflexivity | congruence] ] |]);
    destruct H.
Qed.

End Extension.

(** Lower case for ASCII extensions. *)
Definition lower_ascii (a : ascii) : ascii :=
  let n := nat_of_ascii a in
  if (65 <=? n)%nat && (n <=? 90)%nat then ascii_of_nat (n + 32) else a.

Fixpoint toLowerCase_ascii (s : string) : string :=
  match s with
  | EmptyString => EmptyString
  | String a s' => String (lower_ascii a) (toLowerCase_ascii s')
  end.

(** C4, as stated, fails: [.kml] is none of the five extensions of the
    claim, and it is accepted (as are [.gml], [.topojson], [.wkt], [.csv]
    and upper-case spellings). *)
Lemma kml_is_supported :
  ~ In ".kml" [".json"; ".geojson"; ".shp"; ".parquet"; ".geoparquet"] /\
  getFormatFromExtension toLowerCase_ascii ".kml" = Returns "kml" /\
  getFormatFromExtension toLowerCase_ascii ".JSON" = Returns "geojson".
Proof.
  split; [|split; reflexivity].
  simpl. intros H. repeat (destruct H as [H|H]; [discriminate H|]). destruct H.
Qed.

(** ** The embedded engine

    The engine is modelled by what the converter can observe of it: a
    catalog of named tables, the files it reads and writes, and the
    statements it was sent. Statements are kept as abstract syntax; the
    constructors are named after the SQL they stand for. Reading and writing
    the vector formats and the geometry functions belong to the spatial
    extension and are parameters. *)

Section Engine.
Variables (geom file : Type).

(** A row: its [geometry] column (NULL is [None]) and its other columns. *)
Record row := Row { geometry : option geom; columns : list (string * string) }.
Definition table := list row.

Record envelope := Envelope { x_min : Q; y_min : Q; x_max : Q; y_max : Q }.

(** The spatial extension. *)
Variable ST_READ : file -> list (string * string) -> option table.
Variable ST_WRITE : table -> string -> option file.
Variable ST_GeomFromWKT : string -> option geom.
Variable ST_AsText : geom -> string.
Variable ST_GeometryType : geom -> string.
Variable ST_Envelope : geom -> envelope.
(** [COPY ... FROM] and [COPY ... TO] *)
Variable copy_lines : file -> option (list string).
Variable copy_out : table -> list string -> file.
(** Whether [INSTALL spatial; LOAD spatial;] succeeds. *)
Variable spatial : bool.

Inductive failure :=
| SpatialUnavailable
| NoSuchFile (path : string)
| NoSuchTable (name : string)
| TableExists (name : string)
| CannotRead (path : string)
| CannotWrite (path : string)
| CannotParse (text : string).

(** How the engine words its errors. *)
Variable describe : failure -> string.

Inductive relation :=
(** [SELECT * FROM ST_READ(path, options)] *)
| SelectStRead (path : string) (options : list (string * string))
(** [SELECT * FROM name] *)
| SelectAll (name : string)
(** [SELECT ST_GeomFromWKT(wkt_text) AS geometry FROM name] *)
| SelectGeomFromWKT (name : string)
(** [SELECT ST_AsText(geometry) AS wkt_geometry, * EXCLUDE (geometry) FROM name] *)
| SelectWktAndColumns (name : string)
(** [SELECT ST_AsText(geometry) AS wkt FROM name] *)
| SelectWkt (name : string).

Inductive statement :=
| InstallLoadSpatial
| DropTableIfExists (name : string)
| DropTable (name : string)
(** [CREATE TABLE name(wkt_text VARCHAR)] *)
| CreateTextTable (name : string)
| CreateTableAs (name : string) (r : relation)
| CreateOrReplaceTableAs (name : string) (r : relation)
(** [COPY name FROM path] *)
| CopyFrom (name path : string)
(** [COPY r TO path (options)] *)
| CopyTo (r : relation) (path : string) (options : list string)
(** [CALL ST_WRITE(r, path, format=driver)] *)
| CallStWrite (r : relation) (path driver : string).

Record engine := Engine {
  tables : gmap string table;
  files : gmap string file
}.

Definition result (A : Type) : Type := A + failure.

Definition lookup_table (e : engine) (name : string) : result table :=
  match tables e !! name with
  | Some t => inl t
  | None => inr (NoSuchTable name)
  end.

Fixpoint traverse {A B} (f : A -> result B) (l : list A) : result (list B) :=
  match l with
  | [] => inl []
  | a :: l' =>
      match f a with
      | inl b => match traverse f l' with
                 | inl bs => inl (b :: bs)
                 | inr x => inr x
                 end
      | inr x => inr x
      end
  end.

Definition wkt_text (r : row) : string :=
  default "" (snd <$> List.find (fun c => String.eqb (fst c) "wkt_text") (columns r)).

Definition as_text (r : row) : string :=
  match geometry r with
  | Some g => ST_AsText g
  | None => ""
  end.

Definition eval_relation (e : engine) (r : relation) : result table :=
  match r with
  | SelectStRead path options =>
      match files e !! path with
      | None => inr (NoSuchFile path)
      | Some f =>
          match ST_READ f options with
          | Some t => inl t
          | None => inr (CannotRead path)
          end
      end
  | SelectAll name => lookup_table e name
  | SelectGeomFromWKT name =>
      match lookup_table e name with
      | inl t =>
          traverse (fun r0 => match ST_GeomFromWKT (wkt_text r0) with
                              | Some g => inl (Row (Some g) [])
                              | None => inr (CannotParse (wkt_text r0))
                              end) t
      | inr x => inr x
      end
  | SelectWktAndColumns name =>
      match lookup_table e name with
      | inl t => inl (map (fun r0 => Row None (("wkt_geometry", as_text r0) :: columns r0)) t)
      | inr x => inr x
      end
  | SelectWkt name =>
      match lookup_table e name with
      | inl t => inl (map (fun r0 => Row None [("wkt", as_text r0)]) t)
      | inr x => inr x
      end
  end.

Definition set_table (name : string) (t : table) (e : engine) : engine :=
  Engine (<[name := t]> (tables e)) (files e).

Definition set_file (path : string) (f : file) (e : engine) : engine :=
  Engine (tables e) (<[path := f]> (files e)).

(** One statement: the engine after it, and the failure if it failed. *)
Definition run_statement (s : statement) (e : engine) : engine * option failure :=
  match s with
  | InstallLoadSpatial => (e, if spatial then None else Some SpatialUnavailable)
  | DropTableIfExists name => (Engine (delete name (tables e)) (files e), None)
  | DropTable name =>
      match tables e !! name with
      | Some _ => (Engine (delete name (tables e)) (files e), None)
      | None => (e, Some (NoSuchTable name))
      end
  | CreateTextTable name =>
      match tables e !! name with
      | Some _ => (e, Some (TableExists name))
      | None => (set_table name [] e, None)
      end
  | CreateTableAs name r =>
      match tables e !! name with
      | Some _ => (e, Some (TableExists name))
      | None =>
          match eval_relation e r with
          | inl t => (set_table name t e, None)
          | inr x => (e, Some x)
          end
      end
  | CreateOrReplaceTableAs name r =>
      match eval_relation e r with
      | inl t => (set_table name t e, None)
      | inr x => (e, Some x)
      end
  | CopyFrom name path =>
      match tables e !! name, files e !! path with
      | None, _ => (e, Some (NoSuchTable name))
      | Some _, None => (e, Some (NoSuchFile path))
      | Some t, Some f =>
          match copy_lines f with
          | Some ls => (set_table name (t ++ map (fun l => Row None [("wkt_text", l)]) ls) e, None)
          | None => (e, Some (CannotRead path))
          end
      end
  | CopyTo r path options =>
      match eval_relation e r with
      | inl t => (set_file path (copy_out t options) e, None)
      | inr x => (e, Some x)
      end
  | CallStWrite r path driver =>
      match eval_relation e r with
      | inl t =>
          match ST_WRITE t driver with
          | Some f => (set_file path f e, None)
          | None => (e, Some (CannotWrite path))
          end
      | inr x => (e, Some x)
      end
  end.

(** A script: the statements run in order; the first failure stops the
    script, and what ran before it stays. *)
Fixpoint run_script (script : list statement) (e : engine) : engine * option failure :=
  match script with
  | [] => (e, None)
  | s :: script' =>
      match run_statement s e with
      | (e', None) => run_script script' e'
      | (e', Some x) => (e', Some x)
      end
  end.

(** The three queries of [getGeometryInfo]. *)
Inductive select :=
(** [SELECT COUNT(all rows) as count FROM name] *)
| CountRows (name : string)
(** [SELECT DISTINCT ST_GeometryType(geometry) as geom_type FROM name
     WHERE geometry IS NOT NULL] *)
| DistinctGeometryTypes (name : string)
(** [SELECT MIN(ST_XMin(ST_Envelope(geometry))) as min_x,
            MIN(ST_YMin(ST_Envelope(geometry))) as min_y,
            MAX(ST_XMax(ST_Envelope(geometry))) as max_x,
            MAX(ST_YMax(ST_Envelope(geometry))) as max_y
     FROM name WHERE geometry IS NOT NULL] *)
| EnvelopeBounds (name : string).

(** Values and rows as JavaScript receives them. *)
Inductive jsvalue :=
| Num (q : Q)
| Str (s : string)
| Null
| Undefined.

Definition jsobject := list (string * jsvalue).

(** [o.k] *)
Definition prop (o : jsobject) (k : string) : jsvalue :=
  default Undefined (snd <$> List.find (fun c => String.eqb (fst c) k) o).

(** The geometries of the rows [WHERE geometry IS NOT NULL]. *)
Definition geometries (t : table) : list geom := omap geometry t.

(** [MIN] and [MAX]: NULL over no rows. *)
Definition aggregate (f : Q -> Q -> Q) (l : list Q) : jsvalue :=
  match l with
  | [] => Null
  | q :: l' => Num (fold_left f l' q)
  end.

Definition eval_select (e : engine) (q : select) : result (list jsobject) :=
  match q with
  | CountRows name =>
      match lookup_table e name with
      | inl t => inl [[("count", Num (inject_Z (Z.of_nat (length t))))]]
      | inr x => inr x
      end
  | DistinctGeometryTypes name =>
      match lookup_table e name with
      | inl t =>
          inl (map (fun s => [("geom_type", Str s)])
                   (nodup string_dec (map ST_GeometryType (geometries t))))
      | inr x => inr x
      end
  | EnvelopeBounds name =>
      match lookup_table e name with
      | inl t =>
          let envelopes := map ST_Envelope (geometries t) in
          inl [[("min_x", aggregate Qmin (map x_min envelopes));
                ("min_y", aggregate Qmin (map y_min envelopes));
                ("max_x", aggregate Qmax (map x_max envelopes));
                ("max_y", aggregate Qmax (map y_max envelopes))]]
      | inr x => inr x
      end
  end.

(** ** The class

    Its static state: whether [conn] is set, the engine behind it, and --
    for the statements below -- what was sent over the connection. *)

Inductive request :=
| Exec (script : list statement)
| All (q : select).

Record world := World { conn : bool; db : engine; sent : list request }.

(** [this.conn.exec(sql)] *)
Definition conn_exec (script : list statement) : M world unit :=
  fun w =>
    let (e, r) := run_script script (db w) in
    (World (conn w) e (sent w ++ [Exec script]),
     match r with
     | None => Returns tt
     | Some x => Throws (mkError (describe x))
     end).

(** [query(sql)], that is [this.conn.all(sql, callback)] *)
Definition query (q : select) : M world (list jsobject) :=
  fun w =>
    (World (conn w) (db w) (sent w ++ [All q]),
     match eval_select (db w) q with
     | inl rows => Returns rows
     | inr x => Throws (mkError (describe x))
     end).

(** [init]: a new in-memory database, a connection to it, and the spatial
    extension. *)
Definition init : M world unit :=
  let* _ := modify (fun w => World (conn w) (Engine ∅ (files (db w))) (sent w)) in
  let* _ := modify (fun w => World true (db w) (sent w)) in
  conn_exec [InstallLoadSpatial].

(** [if (!this.conn) { await this.init(); }] *)
Definition ensure_conn : M world unit :=
  let* absent := gets (fun w => negb (conn w)) in
  when absent init.

Definition temp_geo_data : string := "temp_geo_data".

Definition st_read_load (filePath : string) (options : list (string * string)) : M world unit :=
  conn_exec [CreateTableAs temp_geo_data (SelectStRead filePath options)].

Definition loadData (filePath : string) (format : GeoFormat) : M world unit :=
  let* _ := conn_exec [DropTableIfExists temp_geo_data] in
  if String.eqb format "geojson" then st_read_load filePath [("auto_detect", "true")]
  else if String.eqb format "shapefile" then st_read_load filePath [("format", "'shapefile'")]
  else if String.eqb format "kml" then st_read_load filePath [("format", "'kml'")]
  else if String.eqb format "gml" then st_read_load filePath [("format", "'gml'")]
  else if String.eqb format "csv" then
    st_read_load filePath [("format", "'csv'"); ("auto_detect", "true")]
  else if String.eqb format "geoparquet" then st_read_load filePath [("format", "'parquet'")]
  else if String.eqb format "wkt" then
    conn_exec [CreateTextTable "temp_wkt_raw";
               CopyFrom "temp_wkt_raw" filePath;
               CreateTableAs temp_geo_data (SelectGeomFromWKT "temp_wkt_raw");
               DropTable "temp_wkt_raw"]
  else if String.eqb format "topojson" then st_read_load filePath [("format", "'topojson'")]
  else throw (mkError ("Unsupported input format: " +:+ format)).

Definition st_write_export (filePath driver : string) : M world unit :=
  conn_exec [CallStWrite (SelectAll temp_geo_data) filePath driver].

Definition exportData (filePath : string) (format : GeoFormat) : M world unit :=
  if String.eqb format "geojson" then st_write_export filePath "GeoJSON"
  else if String.eqb format "shapefile" then st_write_export filePath "ESRI Shapefile"
  else if String.eqb format "kml" then st_write_export filePath "KML"
  else if String.eqb format "gml" then st_write_export filePath "GML"
  else if String.eqb format "csv" then
    conn_exec [CreateOrReplaceTableAs "temp_geo_csv" (SelectWktAndColumns temp_geo_data);
               CopyTo (SelectAll "temp_geo_csv") filePath ["HEADER"; "DELIMITER ','"];
               DropTable "temp_geo_csv"]
  else if String.eqb format "geoparquet" then st_write_export filePath "Parquet"
  else if String.eqb format "wkt" then
    conn_exec [CopyTo (SelectWkt temp_geo_data) filePath []]
  else if String.eqb format "topojson" then st_write_export filePath "TopoJSON"
  else throw (mkError ("Unsupported output format: " +:+ format)).

Definition convert (inputPath outputPath : string) (inputFormat outputFormat : GeoFormat)
    : M world unit :=
  let* _ := ensure_conn in
  try_catch
    (let* _ := loadData inputPath inputFormat in
     exportData outputPath outputFormat)
    (fun error => throw (mkError ("Conversion failed: " +:+ message error))).

Record GeometryInfo := {
  count : jsvalue;
  types : list jsvalue;
  bounds : list jsvalue
}.

(** [rows[0]]; reading a property of [undefined] throws a TypeError. *)
Definition first_row (rows : list jsobject) (reading : string) : M world jsobject :=
  match rows with
  | r :: _ => ret r
  | [] => throw (mkError ("Cannot read properties of undefined (reading '" +:+ reading +:+ "')"))
  end.

Definition getGeometryInfo (filePath : string) (format : GeoFormat) : M world GeometryInfo :=
  let* _ := ensure_conn in
  try_catch
    (let* _ := loadData filePath format in
     let* countResult := query (CountRows temp_geo_data) in
     let* typesResult := query (DistinctGeometryTypes temp_geo_data) in
     let* boundsResult := query (EnvelopeBounds temp_geo_data) in
     let* count0 := first_row countResult "count" in
     let* bounds0 := first_row boundsResult "min_x" in
     ret {| count := prop count0 "count";
            types := map (fun row => prop row "geom_type") typesResult;
            bounds := [prop bounds0 "min_x"; prop bounds0 "min_y";
                       prop bounds0 "max_x"; prop bounds0 "max_y"] |})
    (fun error => throw (mkError ("Failed to get geometry info: " +:+ message error))).

(** ** Facts *)

(** Statements that write a file. *)
Definition writes_file (s : statement) : bool :=
  match s with
  | CopyTo _ _ _ | CallStWrite _ _ _ => true
  | _ => false
  end.


Lemma run_statement_files s e :
  writes_file s = false -> files (fst (run_statement s e)) = files e.
Proof.
  destruct s; simpl; intros H; try discriminate;
    repeat match goal with
           | |- context [match ?x with _ => _ end] => destruct x
           end; reflexivity.
Qed.

Lemma run_script_files : forall script e,
  forallb (fun s => negb (writes_file s)) script = true ->
  files (fst (run_script script e)) = files e.
Proof.
  induction script as [|s script IH]; intros e H; [reflexivity|].
  simpl in H. apply andb_true_iff in H as [Hs H]. apply negb_true_iff in Hs.
  simpl. pose proof (run_statement_files s e Hs) as Hf.
  destruct (run_statement s e) as [e' [x|]]; simpl in *; [exact Hf|].
  rewrite IH by exact H. exact Hf.
Qed.




(** The script [loadData] sends after the [DROP], by format. *)
Definition read_script (filePath : string) (options : list (string * string)) : list statement :=
  [CreateTableAs temp_geo_data (SelectStRead filePath options)].

Definition wkt_script (filePath : string) : list statement :=
  [CreateTextTable "temp_wkt_raw";
   CopyFrom "temp_wkt_raw" filePath;
   CreateTableAs temp_geo_data (SelectGeomFromWKT "temp_wkt_raw");
   DropTable "temp_wkt_raw"].

Inductive load_plan (filePath : string) (format : GeoFormat) : Prop :=
| ReadPlan (options : list (string * string))
    (E : forall w, loadData filePath format w =
                   (let* _ := conn_exec [DropTableIfExists temp_geo_data] in
                    conn_exec (read_script filePath options)) w)
    (R : recognized format = true)
| WktPlan
    (E : forall w, loadData filePath format w =
                   (let* _ := conn_exec [DropTableIfExists temp_geo_data] in
                    conn_exec (wkt_script filePath)) w)
    (R : recognized format = true)
| NoPlan
    (E : forall w, loadData filePath format w =
                   (let* _ := conn_exec [DropTableIfExists temp_geo_data] in
                    throw (mkError ("Unsupported input format: " +:+ format))) w)
    (R : recognized format = false).

Lemma loadData_plan filePath format : load_plan filePath format.
Proof.
  destruct (String.eqb format "geojson") eqn:E1;
    [apply (ReadPlan _ _ [("auto_detect", "true")]) |
  destruct (String.eqb format "shapefile") eqn:E2;
    [apply (ReadPlan _ _ [("format", "'shapefile'")]) |
  destruct (String.eqb format "kml") eqn:E3;
    [apply (ReadPlan _ _ [("format", "'kml'")]) |
  destruct (String.eqb format "gml") eqn:E4;
    [apply (ReadPlan _ _ [("format", "'gml'")]) |
  destruct (String.eqb format "csv") eqn:E5;
    [apply (ReadPlan _ _ [("format", "'csv'"); ("auto_detect", "true")]) |
  destruct (String.eqb format "geoparquet") eqn:E6;
    [apply (ReadPlan _ _ [("format", "'parquet'")]) |
  destruct (String.eqb format "wkt") eqn:E7;
    [apply WktPlan |
  destruct (String.eqb format "topojson") eqn:E8;
    [apply (ReadPlan _ _ [("format", "'topojson'")]) | apply NoPlan]]]]]]]].
  all: try (intros w; unfold loadData, st_read_load;
            rewrite ?E1, ?E2, ?E3, ?E4, ?E5, ?E6, ?E7, ?E8; reflexivity).
  all: unfold recognized, formats; cbn [existsb];
    rewrite ?E1, ?E2, ?E3, ?E4, ?E5, ?E6, ?E7, ?E8, ?orb_true_r; reflexivity.
Qed.





(** A computation only adds to the requests that were sent. *)
Definition grows {A} (m : M world A) : Prop :=
  forall w, exists more, sent (fst (m w)) = sent w ++ more.




Lemma grows_try_catch {A} (m : M world A) (h : Error -> M world A) :
  grows m -> (forall e, grows (h e)) -> grows (try_catch m h).
Proof.
  intros Hm Hh w. unfold try_catch. destruct (Hm w) as (more & E).
  destruct (m w) as [w1 [a|e]]; simpl in *.
  - eauto.
  - destruct (Hh e w1) as (more' & E'). exists (more ++ more').
    rewrite E', E, app_assoc. reflexivity.
Qed.






(** After a load that returned, the staging table holds what the file gives
    and nothing else: it is a function of the files alone. *)
Lemma loadData_fresh filePath format :
  exists staged : gmap string file -> option table,
    forall w w',
      loadData filePath format w = (w', Returns tt) ->
      tables (db w') !! temp_geo_data = staged (files (db w)) /\
      is_Some (staged (files (db w))).
Proof.
  destruct (loadData_plan filePath format) as [options E R | E R | E R].
  - exists (fun fs => fs !! filePath ≫= (fun f => ST_READ f options)).
    intros w w'. rewrite E. unfold bind, conn_exec. cbn -[temp_geo_data recognized].
    rewrite lookup_delete_eq.
    destruct (files (db w) !! filePath) as [f|]; cbn -[temp_geo_data recognized];
      [|discriminate].
    destruct (ST_READ f options); cbn -[temp_geo_data recognized]; [|discriminate].
    intros H. injection H as <-. cbn -[temp_geo_data]. rewrite lookup_insert_eq. eauto.
  - exists (fun fs =>
              (fs !! filePath ≫= copy_lines) ≫= (fun ls =>
                match traverse (fun r0 => match ST_GeomFromWKT (wkt_text r0) with
                                          | Some g => inl (Row (Some g) [])
                                          | None => inr (CannotParse (wkt_text r0))
                                          end)
                               ([] ++ map (fun l => Row None [("wkt_text", l)]) ls) with
                | inl t => Some t
                | inr _ => None
                end)).
    intros w w'. rewrite E. unfold bind, conn_exec. cbn -[temp_geo_data recognized].
    rewrite lookup_delete_ne by discriminate.
    destruct (tables (db w) !! "temp_wkt_raw"); cbn -[temp_geo_data recognized];
      [discriminate|].
    rewrite lookup_insert_eq.
    destruct (files (db w) !! filePath) as [f|]; cbn -[temp_geo_data recognized];
      [|discriminate].
    destruct (copy_lines f) as [ls|]; cbn -[temp_geo_data recognized]; [|discriminate].
    rewrite lookup_insert_ne by discriminate.
    rewrite lookup_insert_ne by discriminate. rewrite lookup_delete_eq.
    unfold lookup_table. cbn -[temp_geo_data recognized]. rewrite lookup_insert_eq.
    match goal with |- context [traverse ?f ?l] => destruct (traverse f l) end;
      cbn -[temp_geo_data recognized]; [|discriminate].
    rewrite lookup_insert_ne by discriminate. rewrite lookup_insert_eq.
    cbn -[temp_geo_data recognized].
    intros H. injection H as <-. cbn -[temp_geo_data].
    rewrite lookup_delete_ne by discriminate. rewrite lookup_insert_eq. eauto.
  - exists (fun _ => None). intros w w'. rewrite E. unfold bind, conn_exec, throw.
    cbn -[temp_geo_data recognized]. discriminate.
Qed.


(** ** getGeometryInfo *)

(** [v] is the least, or the greatest, number of [l]; NULL when [l] is empty. *)
Definition minimum_of (l : list Q) (v : jsvalue) : Prop :=
  match l with
  | [] => v = Null
  | _ :: _ => exists m, v = Num m /\ In m l /\ Forall (fun q => (m <= q)%Q) l
  end.

Definition maximum_of (l : list Q) (v : jsvalue) : Prop :=
  match l with
  | [] => v = Null
  | _ :: _ => exists m, v = Num m /\ In m l /\ Forall (fun q => (q <= m)%Q) l
  end.

Lemma fold_min : forall l q,
  In (fold_left Qmin l q) (q :: l) /\ (fold_left Qmin l q <= q)%Q /\
  Forall (fun x => (fold_left Qmin l q <= x)%Q) l.
Proof.
  induction l as [|x l IH]; intros q; simpl.
  - split; [auto|]. split; [apply Qle_refl | constructor].
  - destruct (IH (Qmin q x)) as (Hin & Hle & Hall).
    split; [|split].
    + destruct Hin as [Hin | Hin]; [|auto].
      rewrite <- Hin. unfold Qmin, GenericMinMax.gmin.
      destruct (Qcompare q x); auto.
    + eapply Qle_trans; [exact Hle | apply Q.le_min_l].
    + constructor; [|exact Hall].
      eapply Qle_trans; [exact Hle | apply Q.le_min_r].
Qed.

Lemma fold_max : forall l q,
  In (fold_left Qmax l q) (q :: l) /\ (q <= fold_left Qmax l q)%Q /\
  Forall (fun x => (x <= fold_left Qmax l q)%Q) l.
Proof.
  induction l as [|x l IH]; intros q; simpl.
  - split; [auto|]. split; [apply Qle_refl | constructor].
  - destruct (IH (Qmax q x)) as (Hin & Hle & Hall).
    split; [|split].
    + destruct Hin as [Hin | Hin]; [|auto].
      rewrite <- Hin. unfold Qmax, GenericMinMax.gmax.
      destruct (Qcompare q x); auto.
    + eapply Qle_trans; [apply Q.le_max_l | exact Hle].
    + constructor; [|exact Hall].
      eapply Qle_trans; [apply Q.le_max_r | exact Hle].
Qed.

Lemma aggregate_min l : minimum_of l (aggregate Qmin l).
Proof.
  destruct l as [|q l]; [reflexivity|]. simpl.
  destruct (fold_min l q) as (Hin & Hle & Hall). eauto.
Qed.

Lemma aggregate_max l : maximum_of l (aggregate Qmax l).
Proof.
  destruct l as [|q l]; [reflexivity|]. simpl.
  destruct (fold_max l q) as (Hin & Hle & Hall). eauto.
Qed.

Lemma NoDup_Str : forall l, List.NoDup l -> List.NoDup (map Str l).
Proof.
  induction 1 as [|s l Hs _ IH]; simpl; constructor; auto.
  intros H. apply in_map_iff in H as (s' & E & H). injection E as ->. auto.
Qed.

(** C6. When [getGeometryInfo] returns, the file was loaded into the
    staging table and three queries followed, which left the engine as the
    load left it; the summary is the number of rows of the table, the
    distinct geometry types of its rows with a geometry, and the bounds
    [[minX, minY, maxX, maxY]], each the least or the greatest over the
    envelopes of those rows. *)
Theorem geometry_info filePath format w w' info :
  getGeometryInfo filePath format w = (w', Returns info) ->
  exists w0 w1 t,
    ensure_conn w = (w0, Returns tt) /\
    loadData filePath format w0 = (w1, Returns tt) /\
    tables (db w1) !! temp_geo_data = Some t /\
    db w' = db w1 /\
    sent w' = sent w1 ++ [All (CountRows temp_geo_data);
                          All (DistinctGeometryTypes temp_geo_data);
                          All (EnvelopeBounds temp_geo_data)] /\
    count info = Num (inject_Z (Z.of_nat (length t))) /\
    List.NoDup (types info) /\
    (forall v, In v (types info) <->
               exists g, In g (geometries t) /\ v = Str (ST_GeometryType g)) /\
    exists minX minY maxX maxY,
      bounds info = [minX; minY; maxX; maxY] /\
      minimum_of (map x_min (map ST_Envelope (geometries t))) minX /\
      minimum_of (map y_min (map ST_Envelope (geometries t))) minY /\
      maximum_of (map x_max (map ST_Envelope (geometries t))) maxX /\
      maximum_of (map y_max (map ST_Envelope (geometries t))) maxY.
Proof.
  intros H. unfold getGeometryInfo, bind at 1 in H.
  destruct (ensure_conn w) as [w0 [[]|e]] eqn:E0; [|discriminate].
  unfold try_catch, bind at 1 in H.
  destruct (loadData filePath format w0) as [w1 [[]|e]] eqn:L; [|discriminate].
  destruct (loadData_fresh filePath format) as (staged & HF).
  destruct (HF _ _ L) as (Et & (t & St)). rewrite St in Et.
  unfold bind, query, eval_select, lookup_table in H. cbn -[temp_geo_data] in H.
  rewrite Et in H. cbn -[temp_geo_data] in H. injection H as <- <-.
  exists w0, w1, t. cbn -[temp_geo_data].
  repeat (split; [first [reflexivity | assumption | rewrite <- !app_assoc; reflexivity]|]).
  rewrite map_map. cbn [prop List.find fst snd]. split; [|split].
  - change (map (fun x => prop [("geom_type", Str x)] "geom_type"))
      with (map Str). apply NoDup_Str, List.NoDup_nodup.
  - intros v. change (map (fun x => prop [("geom_type", Str x)] "geom_type"))
      with (map Str). rewrite in_map_iff. split.
    + intros (s & <- & Hs). apply nodup_In, in_map_iff in Hs as (g & <- & Hg). eauto.
    + intros (g & Hg & ->). exists (ST_GeometryType g). split; [reflexivity|].
      apply nodup_In, in_map_iff. eauto.
  - eexists _, _, _, _. split; [reflexivity|].
    auto using aggregate_min, aggregate_max.
Qed.

(** ** What a conversion writes *)











(** ** getGeometryInfo: when it returns and when it rejects *)




(** ** A load of WKT that fails *)



(** ** A lazy initialisation that fails *)

(** [convert] and [getGeometryInfo] open the connection before their [try]
    block. When the spatial extension cannot be installed they reject with
    the error of the engine as it is, without their own prefix, having
    sent nothing else and touched no file; the connection is set by then,
    so a later call does not initialise again. *)
Theorem lazy_init_failure inputPath outputPath inputFormat outputFormat w :
  spatial = false -> conn w = false ->
  exists w1,
    convert inputPath outputPath inputFormat outputFormat w =
      (w1, Throws (mkError (describe SpatialUnavailable))) /\
    getGeometryInfo inputPath inputFormat w =
      (w1, Throws (mkError (describe SpatialUnavailable))) /\
    conn w1 = true /\
    sent w1 = sent w ++ [Exec [InstallLoadSpatial]] /\
    files (db w1) = files (db w) /\
    ensure_conn w1 = (w1, Returns tt).
Proof.
  intros Hs Hc.
  exists (World true (Engine ∅ (files (db w))) (sent w ++ [Exec [InstallLoadSpatial]])).
  unfold convert, getGeometryInfo, ensure_conn, init, bind, gets, when, modify, conn_exec.
  rewrite Hc. cbn. rewrite Hs. cbn. auto 10.
Qed.

(** ** convertFile *)

(** [String.prototype.toLowerCase] and [path.extname] *)
Variable toLowerCase : string -> string.
Variable extname : string -> string.

Definition convertFile (inputFile outputFile : string) (outputFormat : option GeoFormat)
    : M world unit :=
  let* inputFormat :=
    of_outcome (getFormatFromExtension toLowerCase (extname inputFile)) in
  let* outputFormat :=
    (if negb (truthy_string outputFormat)
     then of_outcome (getFormatFromExtension toLowerCase (extname outputFile))
     else ret (default "" outputFormat)) in
  convert inputFile outputFile inputFormat outputFormat.

Lemma extension_recognized ext format :
  getFormatFromExtension toLowerCase ext = Returns format -> recognized format = true.
Proof.
  unfold getFormatFromExtension.
  repeat match goal with
         | |- context [if ?c then _ else _] => destruct c
         end;
    intros H; try discriminate; injection H as <-; reflexivity.
Qed.

Lemma extension_unsupported ext e :
  getFormatFromExtension toLowerCase ext = Throws e ->
  e = mkError ("Unsupported file extension: " +:+ ext).
Proof.
  unfold getFormatFromExtension.
  repeat match goal with
         | |- context [if ?c then _ else _] => destruct c
         end;
    intros H; try discriminate; injection H as <-; reflexivity.
Qed.

(** [convertFile] reads the formats off the extensions before anything
    else. An input extension that is not in the table, or an output
    extension that is not when no output format is given, is rejected with
    [Unsupported file extension], unwrapped, before the connection is
    opened or anything is sent. Otherwise the call is [convert] with the
    formats found, which are among the eight that loading and exporting
    handle; an output format that is given is taken as it is and the
    output extension is not looked at. *)
Theorem convertFile_infers_formats inputFile outputFile outputFormat w :
  (forall e,
     getFormatFromExtension toLowerCase (extname inputFile) = Throws e ->
     convertFile inputFile outputFile outputFormat w = (w, Throws e) /\
     e = mkError ("Unsupported file extension: " +:+ extname inputFile)) /\
  (forall fi,
     getFormatFromExtension toLowerCase (extname inputFile) = Returns fi ->
     recognized fi = true /\
     (truthy_string outputFormat = true ->
      convertFile inputFile outputFile outputFormat w =
        convert inputFile outputFile fi (default "" outputFormat) w) /\
     (truthy_string outputFormat = false ->
      (forall e,
         getFormatFromExtension toLowerCase (extname outputFile) = Throws e ->
         convertFile inputFile outputFile outputFormat w = (w, Throws e) /\
         e = mkError ("Unsupported file extension: " +:+ extname outputFile)) /\
      (forall fo,
         getFormatFromExtension toLowerCase (extname outputFile) = Returns fo ->
         recognized fo = true /\
         convertFile inputFile outputFile outputFormat w =
           convert inputFile outputFile fi fo w))).
Proof.
  split.
  - intros e He. split; [|exact (extension_unsupported _ _ He)].
    unfold convertFile, bind, of_outcome. rewrite He. reflexivity.
  - intros fi Hi. split; [exact (extension_recognized _ _ Hi)|]. split.
    + intros Ho. unfold convertFile, bind, of_outcome, ret. rewrite Hi, Ho. reflexivity.
    + intros Ho. split.
      * intros e He. split; [|exact (extension_unsupported _ _ He)].
        unfold convertFile, bind, of_outcome, ret. rewrite Hi, Ho, He. reflexivity.
      * intros fo Hfo. split; [exact (extension_recognized _ _ Hfo)|].
        unfold convertFile, bind, of_outcome, ret. rewrite Hi, Ho, Hfo. reflexivity.
Qed.

End Engine.

Arguments Row {geom} geometry columns.
Arguments geometry {geom} r.
Arguments columns {geom} r.
Arguments Engine {geom file} tables files.
Arguments tables {geom file} e.
Arguments files {geom file} e.
Arguments World {geom file} conn db sent.
Arguments conn {geom file} w.
Arguments db {geom file} w.
Arguments sent {geom file} w.

(** ** An engine to run the class on

    A geometry is its type name and its envelope; a file holds the table
    that reading it gives. *)

Definition demo_geom : Type := string * envelope.
Definition demo_file : Type := table demo_geom.

Definition demo_describe (x : failure) : string :=
  match x with
  | SpatialUnavailable => "Extension spatial not found"
  | NoSuchFile path => "IO Error: No files found that match the pattern " +:+ path
  | NoSuchTable name => "Catalog Error: Table with name " +:+ name +:+ " does not exist"
  | TableExists name => "Catalog Error: Table with name " +:+ name +:+ " already exists"
  | CannotRead path => "IO Error: Could not read " +:+ path
  | CannotWrite path => "IO Error: Could not write " +:+ path
  | CannotParse text => "Conversion Error: Could not parse " +:+ text
  end.


Definition demo_getGeometryInfo :=
  getGeometryInfo demo_geom demo_file (fun f _ => Some f) (fun t _ => Some t) (fun _ => None) fst
                  fst snd (fun _ => None) (fun t _ => t) true demo_describe.


(** The two features of the repository's test: a point and a line. *)
Definition test_features : demo_file :=
  [Row (Some ("POINT", Envelope 0 0 0 0)) [("name", "Test Point")];
   Row (Some ("LINESTRING", Envelope 0 0 1 1)) [("name", "Test Line")]].

Definition test_world : world demo_geom demo_file :=
  World false (Engine ∅ {[ "test.geojson" := test_features ]}) [].

Definition test_info : GeometryInfo :=
  {| count := Num 2;
     types := [Str "POINT"; Str "LINESTRING"];
     bounds := [Num 0; Num 0; Num 1; Num 1] |}.



Lemma geometry_info_witness :
  exists w' t,
    demo_getGeometryInfo "test.geojson" "geojson" test_world = (w', Returns test_info) /\
    tables (db w') !! temp_geo_data = Some t /\
    count test_info = Num (inject_Z (Z.of_nat (length t))).
Proof.
  assert (H : demo_getGeometryInfo "test.geojson" "geojson" test_world =
              (fst (demo_getGeometryInfo "test.geojson" "geojson" test_world),
               Returns test_info)) by (vm_compute; reflexivity).
  destruct (geometry_info _ _ _ _ _ _ _ _ _ _ _ _ _ _ _ _ _ H)
    as (w0 & w1 & t & _ & _ & Ht & Hdb & _ & Hc & _).
  exists (fst (demo_getGeometryInfo "test.geojson" "geojson" test_world)), t.
  split; [exact H|]. split; [rewrite Hdb; exact Ht | exact Hc].
Defined.


(** The same engine without the spatial extension. *)
Definition offline_convert :=
  convert demo_geom demo_file (fun f _ => Some f) (fun t _ => Some t) (fun _ => None) fst
          (fun _ => None) (fun t _ => t) false demo_describe.

(** The extension of a file name without directories: from its last dot on. *)
Fixpoint last_dot (s : string) : option string :=
  match s with
  | EmptyString => None
  | String c s' =>
      match last_dot s' with
      | Some e => Some e
      | None => if Ascii.eqb c "." then Some s else None
      end
  end.

Definition demo_extname (path : string) : string := default "" (last_dot path).

Definition demo_convertFile :=
  convertFile demo_geom demo_file (fun f _ => Some f) (fun t _ => Some t) (fun _ => None) fst
              (fun _ => None) (fun t _ => t) true demo_describe toLowerCase_ascii demo_extname.






Lemma lazy_init_failure_witness :
  exists w1,
    offline_convert "test.geojson" "out.wkt" "geojson" "wkt" test_world =
      (w1, Throws (mkError "Extension spatial not found")) /\
    conn w1 = true.
Proof.
  destruct (lazy_init_failure demo_geom demo_file (fun f _ => Some f) (fun t _ => Some t)
              (fun _ => None) fst fst snd (fun _ => None) (fun t _ => t) false
              demo_describe "test.geojson" "out.wkt" "geojson" "wkt" test_world
              eq_refl eq_refl) as (w1 & H1 & _ & H3 & _).
  exists w1. split; [exact H1 | exact H3].
Defined.

Lemma convertFile_infers_formats_witness :
  demo_convertFile "nonexistent.xyz" "output.abc" None test_world =
    (test_world, Throws (mkError "Unsupported file extension: .xyz")).
Proof.
  exact (proj1 (proj1 (convertFile_infers_formats demo_geom demo_file (fun f _ => Some f)
                         (fun t _ => Some t) (fun _ => None) fst (fun _ => None)
                         (fun t _ => t) true demo_describe toLowerCase_ascii demo_extname
                         "nonexistent.xyz" "output.abc" None test_world)
                      (mkError "Unsupported file extension: .xyz") eq_refl)).
Defined.

End Geo.
